(** * azuqua.js: request signing, request building, alias cache and invoke

    A shallow embedding of [src/azuqua.js] (the Azuqua Node.js client) and
    the properties of its signer ([signData]), request builder
    ([makeRequest], [addGetParameter]), alias lookup ([getAlias]) and the
    two API functions [flos] and [invoke].

    JavaScript strings are modelled as byte strings (their UTF-8 encoding),
    so [Buffer.byteLength] is [String.length].  A call that takes a
    completion callback is modelled by the arguments its callback is called
    with ([Called error data]); the promise that [wrapAsyncFunction] returns
    when no callback is given settles from the same two arguments.  The
    transport ([restjs]), the clock and [JSON.parse] are parameters ([Env]);
    [crypto], [underscore] and [async] are modelled from their documented
    behaviour. *)

From Stdlib Require Import ZArith List Bool Ascii String DecimalString Lia.
Import ListNotations.

Local Open Scope string_scope.
Local Open Scope Z_scope.

(* ================================================================== *)
(** ** Bytes and hexadecimal text *)

Definition bytes_of_string (s : string) : list Z :=
  map (fun c => Z.of_N (N_of_ascii c)) (list_ascii_of_string s).

Definition hex_digit (upper : bool) (d : Z) : ascii :=
  if d <? 10 then ascii_of_N (Z.to_N (48 + d))
  else ascii_of_N (Z.to_N ((if upper then 55 else 87) + d)).

Definition hex_byte (upper : bool) (b : Z) : string :=
  String (hex_digit upper (Z.shiftr b 4))
    (String (hex_digit upper (Z.land b 15)) EmptyString).

Definition hex_of_bytes (bs : list Z) : string :=
  fold_right (fun b acc => hex_byte false b ++ acc) "" bs.

(* ================================================================== *)
(** ** SHA-256 (FIPS 180-4) and HMAC (RFC 2104)

    [crypto.createHmac("sha256", key).update(msg).digest("hex")] is a call
    into Node's crypto module; it is modelled by the published algorithms
    on 32-bit words held in [Z], with the wrap-around written out. *)

Module SHA256.

Definition wrap32 (x : Z) : Z := x mod 2 ^ 32.

Definition rotr (n x : Z) : Z :=
  Z.lor (Z.shiftr x n) (wrap32 (Z.shiftl x (32 - n))).

Definition not32 (x : Z) : Z := Z.lxor x 0xffffffff.

Definition Ch (x y z : Z) : Z := Z.lxor (Z.land x y) (Z.land (not32 x) z).
Definition Maj (x y z : Z) : Z :=
  Z.lxor (Z.lxor (Z.land x y) (Z.land x z)) (Z.land y z).
Definition bsig0 (x : Z) : Z := Z.lxor (Z.lxor (rotr 2 x) (rotr 13 x)) (rotr 22 x).
Definition bsig1 (x : Z) : Z := Z.lxor (Z.lxor (rotr 6 x) (rotr 11 x)) (rotr 25 x).
Definition ssig0 (x : Z) : Z := Z.lxor (Z.lxor (rotr 7 x) (rotr 18 x)) (Z.shiftr x 3).
Definition ssig1 (x : Z) : Z := Z.lxor (Z.lxor (rotr 17 x) (rotr 19 x)) (Z.shiftr x 10).

(** The first [n] primes from [k] on, by trial division. *)
Definition is_prime (k : nat) : bool :=
  forallb (fun d => negb (Nat.eqb (Nat.modulo k d) 0)) (seq 2 (k - 2)).

Definition first_primes : list Z :=
  map Z.of_nat (firstn 64 (filter is_prime (seq 2 310))).

(** Integer cube root, one bit at a time from bit [n - 1] down. *)
Fixpoint cube_root (n : nat) (x r : Z) : Z :=
  match n with
  | O => r
  | S n' =>
      let r' := r + 2 ^ Z.of_nat n' in
      cube_root n' x (if r' * r' * r' <=? x then r' else r)
  end.

(** The round constants: the first 32 bits of the fractional parts of the
    cube roots of the first 64 primes. *)
Definition round_constants : list Z := Eval vm_compute in
  map (fun p => wrap32 (cube_root 36 (p * 2 ^ 96) 0)) first_primes.

(** The initial hash value: the first 32 bits of the fractional parts of
    the square roots of the first 8 primes. *)
Definition initial_hash : list Z := Eval vm_compute in
  map (fun p => wrap32 (Z.sqrt (p * 2 ^ 64))) (firstn 8 first_primes).

(** Big-endian encoding of [x] on [n] bytes. *)
Fixpoint be_bytes (n : nat) (x : Z) : list Z :=
  match n with
  | O => []
  | S n' => Z.land (Z.shiftr x (8 * Z.of_nat n')) 255 :: be_bytes n' x
  end.

(** Padding: a 1 bit, zeros up to 56 mod 64 bytes, the bit length on 8 bytes. *)
Definition pad (msg : list Z) : list Z :=
  let len := Z.of_nat (List.length msg) in
  let zeros := Z.to_nat ((55 - len) mod 64) in
  msg ++ 0x80 :: repeat 0 zeros ++ be_bytes 8 (8 * len).

Fixpoint words_of_bytes (n : nat) (bs : list Z) : list Z :=
  match n with
  | O => []
  | S n' =>
      match bs with
      | b0 :: b1 :: b2 :: b3 :: rest =>
          (Z.shiftl b0 24 + Z.shiftl b1 16 + Z.shiftl b2 8 + b3)
            :: words_of_bytes n' rest
      | _ => []
      end
  end.

(** Message schedule; [window] holds the sixteen words before the next one. *)
Fixpoint schedule (n : nat) (window : list Z) : list Z :=
  match n with
  | O => []
  | S n' =>
      match window with
      | [] => []
      | w0 :: rest =>
          let w := wrap32 (ssig1 (nth 13 rest 0) + nth 8 rest 0
                           + ssig0 (nth 0 rest 0) + w0) in
          w0 :: schedule n' (rest ++ [w])
      end
  end.

Definition round (st : list Z) (kw : Z * Z) : list Z :=
  match st with
  | [a; b; c; d; e; f; g; h] =>
      let t1 := h + bsig1 e + Ch e f g + fst kw + snd kw in
      let t2 := bsig0 a + Maj a b c in
      [wrap32 (t1 + t2); a; b; c; wrap32 (d + t1); e; f; g]
  | _ => st
  end.

Definition compress (H : list Z) (block : list Z) : list Z :=
  let W := schedule 64 (words_of_bytes 16 block) in
  let out := fold_left round (combine round_constants W) H in
  map (fun p => wrap32 (fst p + snd p)) (combine H out).

Fixpoint blocks (n : nat) (H : list Z) (bs : list Z) : list Z :=
  match n with
  | O => H
  | S n' => blocks n' (compress H (firstn 64 bs)) (skipn 64 bs)
  end.

Definition digest (msg : list Z) : list Z :=
  let padded := pad msg in
  let H := blocks (List.length padded / 64) initial_hash padded in
  flat_map (be_bytes 4) H.

End SHA256.

Module HMAC.

Definition block_size : nat := 64.

Definition normal_key (key : list Z) : list Z :=
  let k := if (Nat.ltb block_size (List.length key)) then SHA256.digest key else key in
  k ++ repeat 0 (block_size - List.length k).

Definition sha256 (key msg : list Z) : list Z :=
  let k := normal_key key in
  let inner := SHA256.digest (map (Z.lxor 0x36) k ++ msg) in
  SHA256.digest (map (Z.lxor 0x5c) k ++ inner).

End HMAC.

(** [crypto.createHmac("sha256", key).update(msg).digest("hex")] *)
Definition hmac_sha256_hex (key msg : string) : string :=
  hex_of_bytes (HMAC.sha256 (bytes_of_string key) (bytes_of_string msg)).


(* ================================================================== *)
(** ** JavaScript values

    The fragment of JavaScript values the client handles: payloads, parsed
    JSON, errors.  Numbers are integers; [VNum n] is the JavaScript number
    [n] when [n] is at most 2^53 - 1 in size ([safe_numbers]), and those
    are printed in plain decimal;
    [VError m] is [new Error(m)]; [VBuiltin k] is the member [k] that every
    plain object inherits from [Object.prototype]. Objects are association
    lists of their own enumerable properties, in enumeration order. *)

#[local] Unset Elimination Schemes.

Inductive value : Type :=
| VUndefined
| VNull
| VBool (b : bool)
| VNum (n : Z)
| VStr (s : string)
| VArr (items : list value)
| VObj (props : list (string * value))
| VError (message : string)
| VBuiltin (name : string).

#[local] Set Elimination Schemes.

Definition object := list (string * value).

(** ToBoolean: what [if(x)], [!x] and [a || b] test. *)
Definition truthy (v : value) : bool :=
  match v with
  | VUndefined | VNull => false
  | VBool b => b
  | VNum n => negb (n =? 0)
  | VStr s => negb (s =? "")%string
  | VArr _ | VObj _ | VError _ | VBuiltin _ => true
  end.

Inductive jstype := TUndefined | TObject | TBoolean | TNumber | TString | TFunction.

(** [typeof v] *)
Definition typeof (v : value) : jstype :=
  match v with
  | VUndefined => TUndefined
  | VNull | VArr _ | VObj _ | VError _ => TObject
  | VBool _ => TBoolean
  | VNum _ => TNumber
  | VStr _ => TString
  | VBuiltin k => if (k =? "__proto__")%string then TObject else TFunction
  end.

Definition dquote : string := String (ascii_of_nat 34) "".
Definition backslash : string := String (ascii_of_nat 92) "".

Definition string_of_Z (n : Z) : string := NilZero.string_of_int (Z.to_int n).

(** [parts.join(sep)] on an array of strings. *)
Fixpoint join (sep : string) (parts : list string) : string :=
  match parts with
  | [] => ""
  | [p] => p
  | p :: rest => p ++ sep ++ join sep rest
  end.

(** ToString: what [a + b] with a string operand, [encodeURIComponent(x)],
    [new Error(x)] and a property key [o[x]] apply to [x]. *)
Fixpoint to_string (v : value) : string :=
  match v with
  | VUndefined => "undefined"
  | VNull => "null"
  | VBool true => "true"
  | VBool false => "false"
  | VNum n => string_of_Z n
  | VStr s => s
  | VArr items =>
      join "," (map (fun x => match x with
                              | VUndefined | VNull => ""
                              | _ => to_string x
                              end) items)
  | VObj _ => "[object Object]"
  | VError m => if (m =? "")%string then "Error" else "Error: " ++ m
  | VBuiltin k =>
      if (k =? "__proto__")%string then "[object Object]"
      else "function " ++ k ++ "() { [native code] }"
  end.

(** The quoting of a string inside JSON text. *)
Definition json_escape_char (c : ascii) : string :=
  let n := Z.of_N (N_of_ascii c) in
  if n =? 34 then backslash ++ dquote
  else if n =? 92 then backslash ++ backslash
  else if n =? 8 then backslash ++ "b"
  else if n =? 9 then backslash ++ "t"
  else if n =? 10 then backslash ++ "n"
  else if n =? 12 then backslash ++ "f"
  else if n =? 13 then backslash ++ "r"
  else if n <? 32 then backslash ++ "u00" ++ hex_byte false n
  else String c "".

Fixpoint json_escape (s : string) : string :=
  match s with
  | EmptyString => ""
  | String c rest => json_escape_char c ++ json_escape rest
  end.

Definition json_quote (s : string) : string := dquote ++ json_escape s ++ dquote.

(** [JSON.stringify(v)]; [None] is the result [undefined]. *)
Fixpoint JSON_stringify (v : value) : option string :=
  match v with
  | VUndefined => None
  | VNull => Some "null"
  | VBool true => Some "true"
  | VBool false => Some "false"
  | VNum n => Some (string_of_Z n)
  | VStr s => Some (json_quote s)
  | VArr items =>
      Some ("[" ++ join "," (map (fun x => match JSON_stringify x with
                                           | Some t => t
                                           | None => "null"
                                           end) items) ++ "]")
  | VObj props =>
      Some ("{" ++ join ","
              (flat_map (fun kv => match JSON_stringify (snd kv) with
                                   | Some t => [json_quote (fst kv) ++ ":" ++ t]
                                   | None => []
                                   end) props) ++ "}")
  | VError _ => Some "{}"
  | VBuiltin k => if (k =? "__proto__")%string then Some "{}" else None
  end.

(** The numbers that JavaScript holds exactly and prints digit by digit:
    the integers up to 2^53 - 1 in size. *)
Fixpoint safe_numbers (v : value) : bool :=
  match v with
  | VNum n => Z.abs n <=? 9007199254740991
  | VArr items => forallb safe_numbers items
  | VObj props => forallb (fun kv => safe_numbers (snd kv)) props
  | _ => true
  end.

(** [Object.keys(v).length] for a value that is not [null] or [undefined]. *)
Definition keys_count (v : value) : nat :=
  match v with
  | VStr s => String.length s
  | VArr items => List.length items
  | VObj props => List.length props
  | _ => O
  end.

(** Strict equality [a === b].  Objects, arrays and errors are compared by
    structure, which stands for identity: the client only ever compares a
    stored alias with itself or with a caller's string. *)
Fixpoint strict_eq (a b : value) {struct a} : bool :=
  match a, b with
  | VUndefined, VUndefined => true
  | VNull, VNull => true
  | VBool x, VBool y => Bool.eqb x y
  | VNum x, VNum y => x =? y
  | VStr x, VStr y => (x =? y)%string
  | VArr xs, VArr ys =>
      (fix go (xs ys : list value) {struct xs} : bool :=
         match xs, ys with
         | [], [] => true
         | x :: xs', y :: ys' => strict_eq x y && go xs' ys'
         | _, _ => false
         end) xs ys
  | VObj xs, VObj ys =>
      (fix go (xs ys : list (string * value)) {struct xs} : bool :=
         match xs, ys with
         | [], [] => true
         | (k, x) :: xs', (l, y) :: ys' => (k =? l)%string && strict_eq x y && go xs' ys'
         | _, _ => false
         end) xs ys
  | VError x, VError y => (x =? y)%string
  | VBuiltin x, VBuiltin y => (x =? y)%string
  | _, _ => false
  end.

(* ================================================================== *)
(** ** Library functions the client calls *)

Definition lower_char (c : ascii) : ascii :=
  let n := nat_of_ascii c in
  if andb (Nat.leb 65 n) (Nat.leb n 90) then ascii_of_nat (n + 32) else c.

(** A text of ASCII characters only. *)
Fixpoint ascii_text (s : string) : bool :=
  match s with
  | EmptyString => true
  | String c rest => Nat.ltb (nat_of_ascii c) 128 && ascii_text rest
  end.

(** [s.toLowerCase()] for an ASCII text [s]: only the letters A to Z have
    a lower case there. *)
Fixpoint toLowerCase (s : string) : string :=
  match s with
  | EmptyString => EmptyString
  | String c rest => String (lower_char c) (toLowerCase rest)
  end.

(** [s.indexOf(c) > -1] for a one-character needle. *)
Fixpoint contains_char (c : ascii) (s : string) : bool :=
  match s with
  | EmptyString => false
  | String d rest => Ascii.eqb c d || contains_char c rest
  end.

(** The characters [encodeURIComponent] leaves alone:
    letters, digits and [- _ . ! ~ * ' ( )]. *)
Definition uri_unreserved (c : ascii) : bool :=
  let n := nat_of_ascii c in
  (Nat.leb 65 n && Nat.leb n 90) || (Nat.leb 97 n && Nat.leb n 122)
  || (Nat.leb 48 n && Nat.leb n 57)
  || existsb (Nat.eqb n) [45; 95; 46; 33; 126; 42; 39; 40; 41]%nat.

Definition percent_encode_char (c : ascii) : string :=
  if uri_unreserved c then String c ""
  else "%" ++ hex_byte true (Z.of_N (N_of_ascii c)).

Fixpoint percent_encode (s : string) : string :=
  match s with
  | EmptyString => ""
  | String c rest => percent_encode_char c ++ percent_encode rest
  end.

(** [encodeURIComponent(v)] *)
Definition encodeURIComponent (v : value) : string := percent_encode (to_string v).

(** The replacement text of [String.prototype.replace] for a string pattern
    (no capture groups): [$$] is a dollar, [$&] the match, [$`] the text
    before it, [$'] the text after it; any other [$] stands for itself. *)
Fixpoint get_substitution (matched before after repl : string) : string :=
  match repl with
  | EmptyString => ""
  | String c tail =>
      if Ascii.eqb c "$" then
        match tail with
        | EmptyString => "$"
        | String d rest =>
            if Ascii.eqb d "$" then "$" ++ get_substitution matched before after rest
            else if Ascii.eqb d "&" then matched ++ get_substitution matched before after rest
            else if Ascii.eqb d "`" then before ++ get_substitution matched before after rest
            else if Ascii.eqb d "'" then after ++ get_substitution matched before after rest
            else String c (get_substitution matched before after tail)
        end
      else String c (get_substitution matched before after tail)
  end.

(** [subject.replace(pattern, repl)] with string [pattern] and [repl]:
    the first occurrence only. *)
Definition str_replace (subject pattern repl : string) : string :=
  match index 0 pattern subject with
  | None => subject
  | Some i =>
      let before := substring 0 i subject in
      let after := substring (i + String.length pattern)
                     (String.length subject - (i + String.length pattern)) subject in
      before ++ get_substitution pattern before after repl ++ after
  end.

(** Members every plain object inherits from [Object.prototype]. *)
Definition prototype_members : list string :=
  [ "constructor"; "toString"; "toLocaleString"; "valueOf"; "hasOwnProperty";
    "isPrototypeOf"; "propertyIsEnumerable"; "__proto__";
    "__defineGetter__"; "__defineSetter__"; "__lookupGetter__"; "__lookupSetter__" ].

Definition is_prototype_member (k : string) : bool :=
  existsb (String.eqb k) prototype_members.

Fixpoint own_prop (o : object) (k : string) : option value :=
  match o with
  | [] => None
  | (k', v) :: rest => if (k' =? k)%string then Some v else own_prop rest k
  end.

(** [o[k]] on a plain object: the own property, else the inherited member. *)
Definition get_prop (o : object) (k : string) : value :=
  match own_prop o k with
  | Some v => v
  | None => if is_prototype_member k then VBuiltin k else VUndefined
  end.

(** An array index: the canonical decimal text of an integer from 0 to
    2^32 - 2.  Such keys come first, in numeric order, when the properties
    of an object are enumerated. *)
Definition digit_value (c : ascii) : option Z :=
  let n := nat_of_ascii c in
  if andb (Nat.leb 48 n) (Nat.leb n 57) then Some (Z.of_nat (n - 48)) else None.

Fixpoint digits_value (s : string) (acc : Z) : option Z :=
  match s with
  | EmptyString => Some acc
  | String c rest =>
      match digit_value c with
      | Some d => digits_value rest (10 * acc + d)
      | None => None
      end
  end.

Definition array_index (k : string) : option Z :=
  match k with
  | EmptyString => None
  | String c rest =>
      if Ascii.eqb c "0" && negb (rest =? "")%string then None
      else match digits_value k 0 with
           | Some n => if n <? 4294967295 then Some n else None
           | None => None
           end
  end.

(** A property that exists keeps its place; a new one with a name that is
    no array index goes last. *)
Fixpoint set_named (o : object) (k : string) (v : value) : object :=
  match o with
  | [] => [(k, v)]
  | (k', v') :: rest =>
      if (k' =? k)%string then (k', v) :: rest else (k', v') :: set_named rest k v
  end.

(** A new property whose name is the array index [n] goes after the array
    indices below [n]. *)
Fixpoint insert_index (o : object) (k : string) (n : Z) (v : value) : object :=
  match o with
  | [] => [(k, v)]
  | (k', v') :: rest =>
      match array_index k' with
      | Some n' => if n' <? n then (k', v') :: insert_index rest k n v
                   else (k, v) :: o
      | None => (k, v) :: o
      end
  end.

(** [o[k] = v] on a plain object, for [k] other than [__proto__]. *)
Definition set_prop (o : object) (k : string) (v : value) : object :=
  match array_index k, own_prop o k with
  | Some n, None => insert_index o k n v
  | _, _ => set_named o k v
  end.

(** [v.k] for the members the client reads off parsed JSON ([error], [name],
    [alias]), on a value that is not [null] or [undefined]. *)
Definition member (v : value) (k : string) : value :=
  match v with
  | VObj props => get_prop props k
  | _ => VUndefined
  end.

(** underscore's test for an array-like collection (1.8 and later): a
    [length] that is a number from 0 to 2^53 - 1.  A plain object passes
    it when it has such a property. *)
Definition array_like (o : object) : option nat :=
  match get_prop o "length" with
  | VNum n => if (0 <=? n) && (n <=? 9007199254740991) then Some (Z.to_nat n) else None
  | _ => None
  end.

(** The first own value satisfying [pred], else [undefined]. *)
Fixpoint find_own (pred : value -> bool) (o : object) : value :=
  match o with
  | [] => VUndefined
  | (_, v) :: rest => if pred v then v else find_own pred rest
  end.

(** The first of [o[i]], [o[i+1]], ... ([count] of them) satisfying [pred]. *)
Fixpoint find_indexed (pred : value -> bool) (o : object) (i : Z) (count : nat)
  : value :=
  match count with
  | O => VUndefined
  | S count' =>
      let v := get_prop o (string_of_Z i) in
      if pred v then v else find_indexed pred o (i + 1) count'
  end.

(** [_.find(o, pred)] on a plain object: over [o[0]] .. [o[length-1]] when
    [o] is array-like, over the own values otherwise. *)
Definition find_value (pred : value -> bool) (o : object) : value :=
  match array_like o with
  | Some n => find_indexed pred o 0 n
  | None => find_own pred o
  end.

Fixpoint chars (s : string) : list string :=
  match s with
  | EmptyString => []
  | String c rest => String c "" :: chars rest
  end.

Definition indexed {A} (l : list A) : list (A * value) :=
  combine l (map (fun i => VNum (Z.of_nat i)) (seq 0 (List.length l))).

(** [_.each(v, iteratee)]: the (element, key) pairs the iteratee is called
    with, in order: (item, index) for an array, for a string (of ASCII
    characters) and for an array-like object, (value, name) for any other
    object. *)
Definition each_entries (v : value) : list (value * value) :=
  match v with
  | VObj props =>
      match array_like props with
      | Some n =>
          map (fun i => (get_prop props (string_of_Z (Z.of_nat i)), VNum (Z.of_nat i)))
            (seq 0 n)
      | None => map (fun kv => (snd kv, VStr (fst kv))) props
      end
  | VArr items => indexed items
  | VStr s => indexed (map VStr (chars s))
  | _ => []
  end.

(** Params that the GET loop iterates as JavaScript does: anything but a
    text with characters outside ASCII. *)
Definition plain_text_params (params : value) : bool :=
  match params with
  | VStr s => ascii_text s
  | _ => true
  end.

(* ================================================================== *)
(** ** The client: [src/azuqua.js] *)

Record Options := { path : string; method : string }.

(** [var routes = { invoke: ..., flos: ... }] *)
Module routes.
Definition invoke : Options := {| path := "/flo/:id/invoke"; method := "POST" |}.
Definition flos : Options := {| path := "/account/flos"; method := "GET" |}.
End routes.

(** The string that [data] has become when [signData] reaches
    [meta + data]: the first four lines of [signData], then the conversion
    to a string that [+] applies. *)
Definition signed_body (data : value) : string :=
  let data :=
    if negb (truthy data) then VStr ""
    else match typeof data with
         | TObject => match JSON_stringify data with
                      | Some text => VStr text
                      | None => VUndefined
                      end
         | _ => data
         end in
  to_string data.

(** The text [meta + data] that [signData] feeds to the HMAC. *)
Definition signed_message (data : value) (verb path timestamp : string) : string :=
  let meta := join ":" [toLowerCase verb; path; timestamp] in
  meta ++ signed_body data.

(** [signData(accessSecret, data, verb, path, timestamp)] *)
Definition signData (accessSecret : string) (data : value)
    (verb path timestamp : string) : string :=
  hmac_sha256_hex accessSecret (signed_message data verb path timestamp).

(** [addGetParameter(path, key, value)] *)
Definition addGetParameter (path : string) (key value : value) : string :=
  let delimiter := if contains_char "?" path then "&" else "?" in
  path ++ delimiter ++ encodeURIComponent key ++ "=" ++ encodeURIComponent value.

(** [getAlias(map, str)]: [map[str] || _.find(map, v => v === str)] *)
Definition getAlias (map : object) (str : value) : value :=
  let own := get_prop map (to_string str) in
  if truthy own then own else find_value (fun v => strict_eq v str) map.

(** What the transport hands to its completion function(error, resp). *)
Inductive response :=
| TransportError (error : value)
| TransportOk (body : string).

Record Request := {
  req_host : string;
  req_port : Z;
  req_method : string;
  req_path : string;
  req_headers : object;
  req_body : value
}.

(** What a run does, in order: a remote refresh of the cache is started, a
    signature is computed, a request is handed to the transport. *)
Inductive event :=
| EvRefresh
| EvSign (data : value) (verb path timestamp : string)
| EvSend (request : Request).

(** The world outside the client: [JSON.parse] ([None] when it throws),
    the transport [self.client.request] and the clock
    [new Date().toISOString()], the last two as functions of what has
    happened so far. *)
Record Env := {
  JSON_parse : string -> option value;
  transport : list event -> Request -> response;
  now : list event -> string
}.

Record Account := { accessKey : option string; accessSecret : option string }.

(** The client object: [self.account], [self.floMap], the header object
    [self.httpOptions.headers] shared by every request, and the log of
    events so far. *)
Record Client := {
  account : option Account;
  floMap : option object;
  headers : object;
  trace : list event
}.

Definition log (ev : event) (self : Client) : Client :=
  {| account := account self; floMap := floMap self;
     headers := headers self; trace := (trace self ++ [ev])%list |}.

Definition set_headers (h : object) (self : Client) : Client :=
  {| account := account self; floMap := floMap self;
     headers := h; trace := trace self |}.

Definition set_floMap (m : object) (self : Client) : Client :=
  {| account := account self; floMap := Some m;
     headers := headers self; trace := trace self |}.

Definition set_account (a : option Account) (self : Client) : Client :=
  {| account := a; floMap := floMap self;
     headers := headers self; trace := trace self |}.

(** How a call ends: the completion callback is called with (error, data);
    or an exception escapes and the callback is never called; or the run
    leaves the modelled fragment (a list response that is an object with
    properties or a text, a workflow named [__proto__]) and nothing is
    said about it. *)
Inductive outcome :=
| Called (error data : value)
| Threw
| Outside.

Definition nonempty (field : option string) : bool :=
  match field with
  | Some s => negb (s =? "")%string
  | None => false
  end.

(** [new Azuqua(accessKey, accessSecret)], with the two environment
    variables [ACCESS_KEY] and [ACCESS_SECRET]. *)
Definition Azuqua (ACCESS_KEY ACCESS_SECRET : option string)
    (accessKey accessSecret : value) : Client :=
  let pick (env : option string) (arg : value) :=
    match arg with
    | VStr s => Some s
    | _ => if nonempty env then env else None
    end in
  {| account := Some {| accessKey := pick ACCESS_KEY accessKey;
                        accessSecret := pick ACCESS_SECRET accessSecret |};
     floMap := None;
     headers := [("Content-Type", VStr "application/json")];
     trace := [] |}.

(** The guard of [makeRequest]:
    [!self.account || !self.account.accessKey || !self.account.accessSecret] *)
Definition credentials (self : Client) : option (string * string) :=
  match account self with
  | Some {| accessKey := Some key; accessSecret := Some secret |} =>
      if negb (key =? "")%string && negb (secret =? "")%string
      then Some (key, secret) else None
  | _ => None
  end.

Definition MissingCredentials : value := VError "Account information not found".
Definition WorkflowNotFound : value := VError "Flo not found".

(** The completion function given to [self.client.request]. *)
Definition on_response (env : Env) (r : response) : outcome :=
  match r with
  | TransportError error => if truthy error then Called error VUndefined else Threw
  | TransportOk body =>
      match JSON_parse env body with
      | None => Called (VStr body) VUndefined
      | Some VNull | Some VUndefined => Threw
      | Some parsed =>
          if truthy (member parsed "error")
          then Called (VError (to_string (member parsed "error"))) VUndefined
          else Called VNull parsed
      end
  end.

(** [params] after the guard
    [if(!params || Object.keys(params).length < 1) params = ""]
    ([Object.keys] of a string or a number as ES2015 has it). *)
Definition normalized_params (params : value) : value :=
  if negb (truthy params) || (keys_count params <? 1)%nat then VStr "" else params.

(** The loop [_.each(params, function(key, value){ options.path =
    addGetParameter(options.path, key, value); })]: underscore calls the
    function with (element, name), so [key] receives the element and
    [value] the name. *)
Definition with_query (path : string) (params : value) : string :=
  fold_left (fun p kv => addGetParameter p (fst kv) (snd kv))
    (each_entries params) path.

(** [Buffer.byteLength(params)] *)
Definition byteLength (params : value) : Z :=
  Z.of_nat (String.length (to_string params)).

(** [makeRequest] from the timestamp to the headers: the request that is
    handed to the transport, and the client with its header object
    updated and the signing logged. *)
Definition signed_request (env : Env) (self : Client) (options : Options)
    (params : value) (key secret : string) : Client * Request :=
  let timestamp := now env (trace self) in
  let params := normalized_params params in
  let hash := signData secret params (method options) (path options) timestamp in
  let self := log (EvSign params (method options) (path options) timestamp) self in
  let path :=
    if (method options =? "GET")%string
    then with_query (path options) params
    else path options in
  let params :=
    if (method options =? "GET")%string then params
    else match JSON_stringify params with
         | Some text => VStr text
         | None => VUndefined
         end in
  let h := headers self in
  let h := if (method options =? "POST")%string
           then set_prop h "Content-Length" (VNum (byteLength params))
           else h in
  let h := set_prop h "x-api-timestamp" (VStr timestamp) in
  let h := set_prop h "x-api-hash" (VStr hash) in
  let h := set_prop h "x-api-accessKey" (VStr key) in
  (set_headers h self,
   {| req_host := "api.azuqua.com"; req_port := 443;
      req_method := method options; req_path := path;
      req_headers := h; req_body := params |}).

(** [self.makeRequest(options, params, callback)] *)
Definition makeRequest (env : Env) (self : Client) (options : Options)
    (params : value) : Client * outcome :=
  match credentials self with
  | None => (self, Called MissingCredentials VUndefined)
  | Some (key, secret) =>
      let (self, request) := signed_request env self options params key secret in
      let r := transport env (trace self) request in
      (log (EvSend request) self, on_response env r)
  end.

(** The iterator of [async.each(flos, ...)] in [flos], run over the items
    of the list response: [m] is [self.floMap], [out] the names found. *)
Fixpoint collect_flos (items : list value) (m : object) (out : list value)
  : object * list value * option outcome :=
  match items with
  | [] => (m, out, None)
  | flo :: rest =>
      match flo with
      | VUndefined | VNull => (m, out, Some Threw)
      | _ =>
          let name := member flo "name" in
          let key := to_string name in
          if (key =? "__proto__")%string then (m, out, Some Outside)
          else
            let out := if negb (truthy (get_prop m key)) then (out ++ [name])%list else out in
            collect_flos rest (set_prop m key (member flo "alias")) out
      end
  end.

(** [Azuqua.prototype.flos(refresh, callback)].  [async.each] reads
    [flos.length] first: that throws for [undefined] and [null], and a
    value with no items ends the iteration at once.  What the library does
    with an object that has properties, or with a text, depends on its
    version: those runs end in [Outside]. *)
Definition flos (env : Env) (self : Client) (refresh : bool) : Client * outcome :=
  match floMap self, refresh with
  | Some m, false => (self, Called VNull (VArr (map (fun kv => VStr (fst kv)) m)))
  | _, _ =>
      let (self, r) := makeRequest env (log EvRefresh self) routes.flos VNull in
      match r with
      | Called error list =>
          if truthy error then (self, Called error VUndefined)
          else
            match list with
            | VArr items =>
                match collect_flos items [] [] with
                | (m, out, None) => (set_floMap m self, Called VNull (VArr out))
                | (m, _, Some stop) => (set_floMap m self, stop)
                end
            | VUndefined | VNull => (set_floMap [] self, Threw)
            | VObj (_ :: _) | VStr (String _ _) | VBuiltin _ =>
                (set_floMap [] self, Outside)
            | _ => (set_floMap [] self, Called VNull (VArr []))
            end
      | stop => (self, stop)
      end
  end.

(** An inherited [Object.prototype] member: a function, not an alias. *)
Definition inherited (v : value) : bool :=
  match v with
  | VBuiltin _ => true
  | _ => false
  end.

(** [self.floMap || {}] *)
Definition cache (self : Client) : object :=
  match floMap self with
  | Some m => m
  | None => []
  end.

(** [var options = _.extend({}, routes.invoke);
     options.path = options.path.replace(":id", alias);] *)
Definition invoke_options (alias : value) : Options :=
  {| path := str_replace (path routes.invoke) ":id" (to_string alias);
     method := method routes.invoke |}.

(** The dispatch branch of [invoke]: substitute the alias and send. *)
Definition dispatch (env : Env) (self : Client) (alias data : value)
  : Client * outcome :=
  makeRequest env self (invoke_options alias) data.

(** What [replace] puts in place of the match when the replacement is the
    function [k] inherited from [Object.prototype]: the function is called
    with (match, offset, subject) and no [this], and its result is turned
    into a string.  [Object] wraps the match; [toString] names its missing
    receiver; [isPrototypeOf] answers false for a text; every other one
    throws a TypeError on its missing receiver ([None]). *)
Definition called_replacement (k matched : string) : option string :=
  if (k =? "constructor")%string then Some matched
  else if (k =? "toString")%string then Some "[object Undefined]"
  else if (k =? "isPrototypeOf")%string then Some "false"
  else None.

(** [subject.replace(pattern, f)] with a string [pattern] and a function
    [f]: the result of the call is inserted as it is. *)
Definition str_replace_call (subject pattern : string)
    (f : string -> option string) : option string :=
  match index 0 pattern subject with
  | None => Some subject
  | Some i =>
      match f pattern with
      | Some text =>
          Some (substring 0 i subject ++ text
                ++ substring (i + String.length pattern)
                     (String.length subject - (i + String.length pattern)) subject)
      | None => None
      end
  end.

(** The dispatch branch for any truthy alias, an inherited member
    included: [map[str]] answers for those too, and nothing in [invoke]
    tells them from an alias. *)
Definition dispatch_any (env : Env) (self : Client) (alias data : value)
  : Client * outcome :=
  match alias with
  | VBuiltin k =>
      if (k =? "__proto__")%string then dispatch env self alias data
      else
        match str_replace_call (path routes.invoke) ":id" (called_replacement k) with
        | Some p =>
            makeRequest env self {| path := p; method := method routes.invoke |} data
        | None => (self, Threw)
        end
  | _ => dispatch env self alias data
  end.

(** The alias that [invoke] settles on before it looks whether there is
    one: the result of the lookup, or with [force] the name itself. *)
Definition resolved (self : Client) (flo : value) (force : bool) : value :=
  let alias := getAlias (cache self) flo in
  if negb (truthy alias) && force then flo else alias.

(** An alias that makes [replace] throw: an inherited function that needs
    a receiver. *)
Definition replacement_throws (alias : value) : bool :=
  match alias with
  | VBuiltin k =>
      negb (k =? "__proto__")%string
      && match str_replace_call (path routes.invoke) ":id" (called_replacement k) with
         | Some _ => false
         | None => true
         end
  | _ => false
  end.

(** [Azuqua.prototype.invoke(flo, data, force, callback)].  The function
    calls itself after a refresh; [fuel] bounds the depth of that
    recursion and [None] means it was not enough. *)
Fixpoint invoke (fuel : nat) (env : Env) (self : Client) (flo data : value)
    (force : bool) : option (Client * outcome) :=
  match fuel with
  | O => None
  | S fuel' =>
      let alias := getAlias (cache self) flo in
      let alias := if negb (truthy alias) && force then flo else alias in
      if truthy alias then Some (dispatch_any env self alias data)
      else
        let (self, r) := flos env self true in
        match r with
        | Called error _ =>
            if truthy error then Some (self, Called error VUndefined)
            else
              match floMap self with
              | None => Some (self, Threw)
              | Some m =>
                  let alias := getAlias m flo in
                  if truthy alias then invoke fuel' env self alias data false
                  else Some (self, Called WorkflowNotFound VUndefined)
              end
        | stop => Some (self, stop)
        end
  end.

(** The answer of the transport to the request [makeRequest] builds. *)
Definition answer (env : Env) (self : Client) (options : Options)
    (params : value) (key secret : string) : response :=
  let built := signed_request env self options params key secret in
  transport env (trace (fst built)) (snd built).

(** [Azuqua.prototype.loadConfig(configPath)]: [this.account] becomes
    whatever the file holds. *)
Definition loadConfig (config : option Account) (self : Client) : Client :=
  set_account config self.

(** *** Observations on a trace *)

Definition is_refresh (ev : event) : bool :=
  match ev with
  | EvRefresh => true
  | _ => false
  end.

(** Number of remote refreshes of the cache in a trace. *)
Definition refreshes (t : list event) : nat := List.length (filter is_refresh t).

(** The signatures computed and the requests sent, in order. *)
Definition sign_and_send (t : list event) : list event :=
  filter (fun ev => negb (is_refresh ev)) t.

Fixpoint sent (t : list event) : list Request :=
  match t with
  | [] => []
  | EvSend r :: rest => r :: sent rest
  | _ :: rest => sent rest
  end.

(** *** The serialized body as the specification words it

    "body is serialized to its canonical string form before signing: empty
    string if absent, JSON text if an object". *)
Inductive serialized_body : value -> string -> Prop :=
| serialized_undefined : serialized_body VUndefined ""
| serialized_null : serialized_body VNull ""
| serialized_object : forall v text,
    typeof v = TObject -> v <> VNull -> JSON_stringify v = Some text ->
    serialized_body v text.

(** *** A sample world

    One account, one workflow [billing] with alias [az1], a clock that
    stands still. [parse] agrees with [JSON.parse] on the bodies the sample
    transports return. *)
Module Sample.

Definition timestamp : string := "2015-06-01T12:00:00.000Z".

Definition key_value (k v : string) : string :=
  dquote ++ k ++ dquote ++ ":" ++ dquote ++ v ++ dquote.

(** The JSON text of [[{name:"billing", alias:"az1"}]]. *)
Definition list_body : string :=
  "[{" ++ key_value "name" "billing" ++ "," ++ key_value "alias" "az1" ++ "}]".

Definition parse (body : string) : option value :=
  if (body =? list_body)%string
  then Some (VArr [VObj [("name", VStr "billing"); ("alias", VStr "az1")]])
  else if (body =? "[]")%string then Some (VArr [])
  else if (body =? "{}")%string then Some (VObj [])
  else None.

(** The service: the list route answers with [list_body], any other
    route with an empty object. *)
Definition env : Env :=
  {| JSON_parse := parse;
     transport := fun _ r =>
       if (req_path r =? path routes.flos)%string
       then TransportOk list_body else TransportOk "{}";
     now := fun _ => timestamp |}.

(** A service whose answers are all [body]. *)
Definition env_answering (body : string) : Env :=
  {| JSON_parse := parse;
     transport := fun _ _ => TransportOk body;
     now := fun _ => timestamp |}.

(** [new Azuqua("k", "s")] *)
Definition client : Client := Azuqua None None (VStr "k") (VStr "s").

(** The same client after [flos()] has filled the cache. *)
Definition client_cached : Client := fst (flos env client true).

(** The cached client after [loadConfig] read a file with no secret. *)
Definition client_no_secret : Client :=
  loadConfig (Some {| accessKey := Some "k"; accessSecret := None |}) client_cached.

Definition payload : value := VObj [("amt", VNum 5)].

(** The invoke route with the alias [az1] in place. *)
Definition invoke_az1 : Options :=
  {| path := "/flo/az1/invoke"; method := "POST" |}.

End Sample.

(** *** Induction on values, through the lists they nest *)

Section value_induction.
Variable P : value -> Prop.
Hypothesis Hundefined : P VUndefined.
Hypothesis Hnull : P VNull.
Hypothesis Hbool : forall b, P (VBool b).
Hypothesis Hnum : forall n, P (VNum n).
Hypothesis Hstr : forall s, P (VStr s).
Hypothesis Harr : forall items, Forall P items -> P (VArr items).
Hypothesis Hobj : forall props, Forall (fun kv => P (snd kv)) props -> P (VObj props).
Hypothesis Herror : forall m, P (VError m).
Hypothesis Hbuiltin : forall k, P (VBuiltin k).

Fixpoint value_ind (v : value) : P v :=
  match v with
  | VUndefined => Hundefined
  | VNull => Hnull
  | VBool b => Hbool b
  | VNum n => Hnum n
  | VStr s => Hstr s
  | VArr items =>
      Harr items
        ((fix all (l : list value) : Forall P l :=
            match l with
            | [] => Forall_nil P
            | x :: l' => Forall_cons x (value_ind x) (all l')
            end) items)
  | VObj props =>
      Hobj props
        ((fix all (l : list (string * value)) : Forall (fun kv => P (snd kv)) l :=
            match l with
            | [] => Forall_nil _
            | kv :: l' => Forall_cons kv (value_ind (snd kv)) (all l')
            end) props)
  | VError m => Herror m
  | VBuiltin k => Hbuiltin k
  end.
End value_induction.

(* ================================================================== *)
(** ** The rest of the client *)

(** The state of the promise that [wrapAsyncFunction] returns when the
    caller gave no callback. *)
Inductive promise :=
| Fulfilled (data : value)
| Rejected (error : value)
| Pending.

(** The callback that [wrapAsyncFunction] pushes onto the arguments:
    [if(error) deferred.reject(error); else deferred.resolve(data);]. *)
Definition settle (o : outcome) : promise :=
  match o with
  | Called error data => if truthy error then Rejected error else Fulfilled data
  | Threw | Outside => Pending
  end.

(** *** Further observations *)

Fixpoint all_chars (p : ascii -> bool) (s : string) : bool :=
  match s with
  | EmptyString => true
  | String c rest => p c && all_chars p rest
  end.

(** [0-9a-f] *)
Definition is_lower_hex (c : ascii) : bool :=
  let n := nat_of_ascii c in
  (Nat.leb 48 n && Nat.leb n 57) || (Nat.leb 97 n && Nat.leb n 102).

(** A character that [encodeURIComponent] may produce: an unreserved one
    or the percent sign. *)
Definition uri_output (c : ascii) : bool := uri_unreserved c || Ascii.eqb c "%".

(** The value of an upper-case hexadecimal digit, and the character that
    two of them encode. *)
Definition unhex_digit (c : ascii) : nat :=
  let n := nat_of_ascii c in
  if Nat.leb n 57 then n - 48 else n - 55.

Definition unhex (hi lo : ascii) : ascii :=
  ascii_of_nat (16 * unhex_digit hi + unhex_digit lo).

(** The text that a percent-encoded text stands for. *)
Fixpoint percent_decode (s : string) : string :=
  match s with
  | EmptyString => ""
  | String c rest =>
      if Ascii.eqb c "%" then
        match rest with
        | String hi (String lo rest') => String (unhex hi lo) (percent_decode rest')
        | _ => String c (percent_decode rest)
        end
      else String c (percent_decode rest)
  end.

(** The query component that one (element, name) pair of the GET loop
    contributes, without its delimiter. *)
Definition query_component (entry : value * value) : string :=
  encodeURIComponent (fst entry) ++ "=" ++ encodeURIComponent (snd entry).

(** The key under which [flos] stores an item of the list response. *)
(** The items that [async.each] iterates in [flos], when it gets that far
    and the model follows it: those of an array, and none for a value that
    has no items. *)
Definition items_of (data : value) : option (list value) :=
  match data with
  | VArr items => Some items
  | VUndefined | VNull => None
  | VObj (_ :: _) | VStr (String _ _) | VBuiltin _ => None
  | _ => Some []
  end.

Definition flo_key (flo : value) : string := to_string (member flo "name").

(** The alias of the last item of the list that has the key [k]. *)
Fixpoint last_alias (items : list value) (k : string) : option value :=
  match items with
  | [] => None
  | flo :: rest =>
      match last_alias rest k with
      | Some a => Some a
      | None => if (flo_key flo =? k)%string then Some (member flo "alias") else None
      end
  end.

(** A text that is no array index. *)
Definition no_index (k : string) : bool :=
  match array_index k with
  | Some _ => false
  | None => true
  end.

(** A list item as the service documents it: an object with a string name
    that is no inherited member and no array index, and a truthy alias. *)
Definition well_named (flo : value) : bool :=
  match flo with
  | VObj props =>
      match get_prop props "name" with
      | VStr name =>
          negb (is_prototype_member name) && no_index name
          && truthy (get_prop props "alias")
      | _ => false
      end
  | _ => false
  end.

(** What a receiver that holds the secret computes from a request as it is
    on the wire: the signature of method, path, the timestamp header and
    the body text. *)
Definition recomputed_hash (secret : string) (r : Request) : option string :=
  match own_prop (req_headers r) "x-api-timestamp", req_body r with
  | Some (VStr timestamp), VStr body =>
      Some (hmac_sha256_hex secret
              (toLowerCase (req_method r) ++ ":" ++ req_path r ++ ":" ++ timestamp
               ++ body))
  | _, _ => None
  end.

(* ================================================================== *)
(** * Properties *)

(** ** Test vectors for the hash *)

Example sha256_abc :
  hex_of_bytes (SHA256.digest (bytes_of_string "abc"))
  = "ba7816bf8f01cfea414140de5dae2223b00361a396177a9cb410ff61f20015ad".
Proof. vm_compute. reflexivity. Qed.

(** RFC 4231, test case 2. *)
Example hmac_rfc4231_case2 :
  hmac_sha256_hex "Jefe" "what do ya want for nothing?"
  = "5bdcc146bf60754e6a042426089575c75a003f089d2739839dec58b964ec3843".
Proof. vm_compute. reflexivity. Qed.

Lemma strict_eq_refl (v : value) : strict_eq v v = true.
Proof.
  induction v using value_ind; simpl;
    auto using Bool.eqb_reflx, Z.eqb_refl, String.eqb_refl.
  - induction H as [|x l Hx _ IH]; [reflexivity|].
    now rewrite Hx, IH.
  - induction H as [|[k x] l Hx _ IH]; [reflexivity|].
    simpl in Hx. now rewrite String.eqb_refl, Hx, IH.
Qed.

(** Strictly equal values are both truthy or both falsy. *)
Lemma strict_eq_truthy (a b : value) :
  strict_eq a b = true -> truthy a = truthy b.
Proof.
  destruct a, b; simpl; try discriminate; try reflexivity.
  - intros H. apply Bool.eqb_prop in H. now subst.
  - intros H. apply Z.eqb_eq in H. now subst.
  - intros H. apply String.eqb_eq in H. now subst.
Qed.


(** ** Strings *)

Lemma append_assoc (a b c : string) : (a ++ b) ++ c = a ++ (b ++ c).
Proof. induction a as [|x a IH]; simpl; [reflexivity | now rewrite IH]. Qed.

Lemma append_empty_r (a : string) : a ++ "" = a.
Proof. induction a as [|x a IH]; simpl; [reflexivity | now rewrite IH]. Qed.

Lemma append_length (a b : string) :
  String.length (a ++ b) = (String.length a + String.length b)%nat.
Proof. induction a as [|x a IH]; simpl; [reflexivity | now rewrite IH]. Qed.

Lemma append_cancel_l (a u w : string) : a ++ u = a ++ w -> u = w.
Proof. induction a as [|x a IH]; simpl; [trivial | intros [= H]; auto]. Qed.

Lemma append_cancel_r (x y b : string) : x ++ b = y ++ b -> x = y.
Proof.
  intros H.
  assert (Hlen : String.length x = String.length y).
  { apply (f_equal String.length) in H. rewrite !append_length in H. lia. }
  revert y H Hlen. induction x as [|c x IH]; intros [|d y]; simpl; try discriminate.
  - reflexivity.
  - intros [= -> H] [= Hlen]. f_equal. now apply IH.
Qed.

(** [[a, b, c].join(":")] written out. *)
Lemma join_colon_3 (a b c : string) : join ":" [a; b; c] = a ++ ":" ++ b ++ ":" ++ c.
Proof. reflexivity. Qed.

(** ** The signer *)

(** A body that is an object (and not [null]) is truthy. *)
Lemma object_truthy (v : value) : typeof v = TObject -> v <> VNull -> truthy v = true.
Proof.
  destruct v; simpl; try discriminate; try reflexivity.
  intros _ H. now contradiction H.
Qed.

(** C1: for every secret, path, timestamp and body, and every verb,
    [signData] returns the hex HMAC-SHA256, keyed by the secret, of
    lowercase(verb) ":" path ":" timestamp followed directly by the
    serialized body, the serialized body being the empty string for an
    absent body and the JSON text for an object.  (Proved for verbs of
    ASCII characters and bodies whose numbers are safe integers, where the
    model's [toLowerCase] and [JSON_stringify] are those of JavaScript.)
    That the function so named is HMAC-SHA256 is fixed by two test cases of
    RFC 4231, one with a key longer than a block, and the whole of
    [signData] by the signature of the specification's scenario. *)
Theorem signData_hmac_of_meta_and_body :
  (forall (secret verb path timestamp : string) (body : value) (text : string),
     ascii_text verb = true ->
     safe_numbers body = true ->
     serialized_body body text ->
     signData secret body verb path timestamp
     = hmac_sha256_hex secret
         (toLowerCase verb ++ ":" ++ path ++ ":" ++ timestamp ++ text))
  /\ toLowerCase "POST" = "post"
  /\ hmac_sha256_hex "Jefe" "what do ya want for nothing?"
     = "5bdcc146bf60754e6a042426089575c75a003f089d2739839dec58b964ec3843"
  /\ hmac_sha256_hex (string_of_list_ascii (repeat (ascii_of_nat 170) 131))
       "Test Using Larger Than Block-Size Key - Hash Key First"
     = "60e431591ee0b67f0d8a26aacbf5b77f8e0bc6213728c5140546040f0ee37f54"
  /\ signData "s" (VObj [("amt", VNum 5)]) "POST" "/flo/az1/invoke"
       "2015-06-01T12:00:00.000Z"
     = "79d67e5cf9964c08b63c51fe960207a8f7145159ac3ab452b06ae2c0ee529b55".
Proof.
  split; [|repeat split; vm_compute; reflexivity].
  intros secret verb path timestamp body text _ _ Hbody.
  unfold signData, signed_message. rewrite join_colon_3.
  f_equal. rewrite !append_assoc. do 4 f_equal.
  unfold signed_body.
  destruct Hbody as [| |v text Hobj Hnull Hjson]; try reflexivity.
  rewrite (object_truthy v Hobj Hnull). simpl. now rewrite Hobj, Hjson.
Qed.

Lemma signData_hmac_of_meta_and_body_witness :
  serialized_body Sample.payload ("{" ++ dquote ++ "amt" ++ dquote ++ ":5}")
  /\ signData "s" Sample.payload "POST" "/flo/az1/invoke" Sample.timestamp
     = hmac_sha256_hex "s"
         (toLowerCase "POST" ++ ":" ++ "/flo/az1/invoke" ++ ":" ++ Sample.timestamp
          ++ ("{" ++ dquote ++ "amt" ++ dquote ++ ":5}")).
Proof.
  assert (H : serialized_body Sample.payload ("{" ++ dquote ++ "amt" ++ dquote ++ ":5}")).
  { apply serialized_object; [reflexivity | discriminate | reflexivity]. }
  split; [exact H|].
  destruct signData_hmac_of_meta_and_body as [Hsign _].
  exact (Hsign "s" "POST" "/flo/az1/invoke" Sample.timestamp
           Sample.payload _ eq_refl eq_refl H).
Defined.

(** The scenario of the specification: the hash of [POST /flo/az1/invoke]
    with body [{amt: 5}] under the secret [s]. *)
Example signData_scenario :
  signData "s" Sample.payload "POST" "/flo/az1/invoke" Sample.timestamp
  = "79d67e5cf9964c08b63c51fe960207a8f7145159ac3ab452b06ae2c0ee529b55".
Proof. vm_compute. reflexivity. Qed.

(** C9, as stated, fails: two input tuples that differ in the verb, by the
    case of its letters only, have the same signature. *)
Lemma signData_verb_case_collision :
  "GET" <> "get"
  /\ signData "s" VUndefined "GET" "/account/flos" Sample.timestamp
     = signData "s" VUndefined "get" "/account/flos" Sample.timestamp.
Proof. split; [discriminate | unfold signData; f_equal]. Qed.

(** Two more pairs of different inputs with one signature: a colon moved
    between path and timestamp, and an absent body against an empty one. *)
Lemma signData_other_collisions :
  signData "s" VUndefined "GET" "/a:b" "c" = signData "s" VUndefined "GET" "/a" "b:c"
  /\ signData "s" VUndefined "GET" "/a" "t" = signData "s" (VStr "") "GET" "/a" "t".
Proof. split; unfold signData; f_equal. Qed.

(** Two secrets with one signature: HMAC pads a short key with zero bytes,
    so a secret and the same secret followed by a NUL character agree. *)
Lemma signData_secret_padding_collision :
  "s" <> "s" ++ String (ascii_of_nat 0) ""
  /\ signData "s" VUndefined "GET" "/account/flos" Sample.timestamp
     = signData ("s" ++ String (ascii_of_nat 0) "") VUndefined "GET" "/account/flos"
         Sample.timestamp.
Proof. split; [discriminate | vm_compute; reflexivity]. Qed.

(** C9, amended: [signData] is deterministic, identical inputs give the
    identical output, and the output depends on the inputs only through the
    secret and the signed text lowercase(verb):path:timestamp+body: it is
    the HMAC of that text under the secret, so verbs that differ in letter
    case only have one signature. The signed text itself changes with every
    change of the path alone, of the timestamp alone, of the serialized
    body alone, and with every change of the verb alone that is more than a
    change of letter case.  (For verbs of ASCII characters and bodies whose
    numbers are safe integers.) *)
Theorem signData_deterministic
    (s1 s2 : string) (d1 d2 : value) (v1 v2 p1 p2 t1 t2 : string) :
  ascii_text v1 = true -> ascii_text v2 = true ->
  safe_numbers d1 = true -> safe_numbers d2 = true ->
  (s1 = s2 -> d1 = d2 -> v1 = v2 -> p1 = p2 -> t1 = t2 ->
   signData s1 d1 v1 p1 t1 = signData s2 d2 v2 p2 t2)
  /\ signData s1 d1 v1 p1 t1
     = hmac_sha256_hex s1
         (toLowerCase v1 ++ ":" ++ p1 ++ ":" ++ t1 ++ signed_body d1)
  /\ (toLowerCase v1 = toLowerCase v2 ->
      signData s1 d1 v1 p1 t1 = signData s1 d1 v2 p1 t1)
  /\ (p1 <> p2 ->
      toLowerCase v1 ++ ":" ++ p1 ++ ":" ++ t1 ++ signed_body d1
      <> toLowerCase v1 ++ ":" ++ p2 ++ ":" ++ t1 ++ signed_body d1)
  /\ (t1 <> t2 ->
      toLowerCase v1 ++ ":" ++ p1 ++ ":" ++ t1 ++ signed_body d1
      <> toLowerCase v1 ++ ":" ++ p1 ++ ":" ++ t2 ++ signed_body d1)
  /\ (signed_body d1 <> signed_body d2 ->
      toLowerCase v1 ++ ":" ++ p1 ++ ":" ++ t1 ++ signed_body d1
      <> toLowerCase v1 ++ ":" ++ p1 ++ ":" ++ t1 ++ signed_body d2)
  /\ (toLowerCase v1 <> toLowerCase v2 ->
      toLowerCase v1 ++ ":" ++ p1 ++ ":" ++ t1 ++ signed_body d1
      <> toLowerCase v2 ++ ":" ++ p1 ++ ":" ++ t1 ++ signed_body d1).
Proof.
  intros _ _ _ _.
  assert (Htext : forall v p t d,
            signed_message d v p t
            = toLowerCase v ++ ":" ++ p ++ ":" ++ t ++ signed_body d).
  { intros. unfold signed_message. rewrite join_colon_3.
    now rewrite !append_assoc. }
  unfold signData. rewrite !Htext.
  split; [intros -> -> -> -> ->; reflexivity|].
  split; [reflexivity|].
  split; [intros Hv; now rewrite Hv|].
  split; [|split; [|split]].
  - intros Hne H. apply Hne.
    apply append_cancel_l in H. cbn [append] in H. injection H as H.
    change (p1 ++ ":" ++ t1 ++ signed_body d1)
      with (p1 ++ (":" ++ t1 ++ signed_body d1)) in H.
    now apply append_cancel_r in H.
  - intros Hne H. apply Hne.
    do 2 (apply append_cancel_l in H; cbn [append] in H; injection H as H).
    now apply append_cancel_r in H.
  - intros Hne H. apply Hne.
    do 2 (apply append_cancel_l in H; cbn [append] in H; injection H as H).
    now apply append_cancel_l in H.
  - intros Hne H. apply Hne.
    change (toLowerCase v1 ++ ":" ++ p1 ++ ":" ++ t1 ++ signed_body d1)
      with (toLowerCase v1 ++ (":" ++ p1 ++ ":" ++ t1 ++ signed_body d1)) in H.
    now apply append_cancel_r in H.
Qed.

Lemma signData_deterministic_witness :
  signData "s" Sample.payload "POST" "/flo/az1/invoke" Sample.timestamp
  = signData "s" Sample.payload "post" "/flo/az1/invoke" Sample.timestamp
  /\ toLowerCase "POST" ++ ":" ++ "/flo/az1/invoke" ++ ":" ++ Sample.timestamp
       ++ signed_body Sample.payload
     <> toLowerCase "POST" ++ ":" ++ "/flo/az2/invoke" ++ ":" ++ Sample.timestamp
          ++ signed_body Sample.payload.
Proof.
  destruct (signData_deterministic "s" "s" Sample.payload Sample.payload
              "POST" "post" "/flo/az1/invoke" "/flo/az2/invoke"
              Sample.timestamp Sample.timestamp eq_refl eq_refl eq_refl eq_refl)
    as (_ & _ & Hverb & Hpath & _).
  split; [apply Hverb; reflexivity | apply Hpath; discriminate].
Defined.

(** ** The alias lookup *)

Lemma find_own_first (pred : value -> bool) (m : object) (x : value) :
  In x (map snd m) -> pred x = true ->
  pred (find_own pred m) = true /\ In (find_own pred m) (map snd m).
Proof.
  induction m as [|[k v] m IH]; simpl; [tauto|].
  intros Hin Hx. destruct (pred v) eqn:Hv.
  - split; [exact Hv | now left].
  - destruct Hin as [->|Hin]; [congruence|].
    destruct (IH Hin Hx) as [H1 H2]. split; [exact H1 | now right].
Qed.

Lemma find_own_none (pred : value -> bool) (m : object) :
  (forall x, In x (map snd m) -> pred x = false) ->
  find_own pred m = VUndefined.
Proof.
  induction m as [|[k v] m IH]; simpl; [reflexivity|].
  intros H. rewrite (H v) by now left. apply IH. intros x Hx. apply H. now right.
Qed.

Lemma find_own_found (pred : value -> bool) (m : object) :
  truthy (find_own pred m) = true ->
  pred (find_own pred m) = true /\ In (find_own pred m) (map snd m).
Proof.
  induction m as [|[k v] m IH]; simpl; [discriminate|].
  destruct (pred v) eqn:Hv.
  - intros _. split; [exact Hv | now left].
  - intros H. destruct (IH H) as [H1 H2]. split; [exact H1 | now right].
Qed.

Lemma find_indexed_found (pred : value -> bool) (m : object) (count : nat) (i : Z) :
  truthy (find_indexed pred m i count) = true ->
  pred (find_indexed pred m i count) = true
  /\ exists j, find_indexed pred m i count = get_prop m (string_of_Z j).
Proof.
  revert i. induction count as [|count IH]; intros i; cbn [find_indexed];
    [discriminate|].
  destruct (pred (get_prop m (string_of_Z i))) eqn:Hp.
  - intros _. split; [exact Hp | now exists i].
  - apply IH.
Qed.

Lemma find_value_plain (pred : value -> bool) (m : object) :
  array_like m = None -> find_value pred m = find_own pred m.
Proof. unfold find_value. now intros ->. Qed.

Lemma find_value_first (pred : value -> bool) (m : object) (x : value) :
  array_like m = None ->
  In x (map snd m) -> pred x = true ->
  pred (find_value pred m) = true /\ In (find_value pred m) (map snd m).
Proof. intros H. rewrite (find_value_plain _ _ H). apply find_own_first. Qed.

Lemma find_value_none (pred : value -> bool) (m : object) :
  array_like m = None ->
  (forall x, In x (map snd m) -> pred x = false) ->
  find_value pred m = VUndefined.
Proof. intros H. rewrite (find_value_plain _ _ H). apply find_own_none. Qed.

Lemma own_prop_In (m : object) (k : string) (v : value) :
  own_prop m k = Some v -> In v (map snd m).
Proof.
  induction m as [|[k' v'] m IH]; simpl; [discriminate|].
  destruct (k' =? k)%string.
  - intros [= ->]. now left.
  - intros H. right. now apply IH.
Qed.

(** What [_.find] returns, when it is truthy and no inherited member, is
    a stored value that satisfies the test, also on an array-like map. *)
Lemma find_value_found (pred : value -> bool) (m : object) :
  truthy (find_value pred m) = true ->
  (forall k, find_value pred m <> VBuiltin k) ->
  pred (find_value pred m) = true /\ In (find_value pred m) (map snd m).
Proof.
  unfold find_value. destruct (array_like m) as [n|].
  - intros Ht Hb. destruct (find_indexed_found _ _ _ _ Ht) as [Hp [j Hj]].
    split; [exact Hp|]. rewrite Hj in *. unfold get_prop in *.
    destruct (own_prop m (string_of_Z j)) as [v|] eqn:Hown.
    + eapply own_prop_In; eassumption.
    + destruct (is_prototype_member (string_of_Z j)); [|discriminate].
      now destruct (Hb (string_of_Z j)).
  - intros Ht _. now apply find_own_found.
Qed.

Lemma strict_eq_string (v : value) (s : string) :
  strict_eq v (VStr s) = true -> v = VStr s.
Proof.
  destruct v; simpl; try discriminate.
  intros H. apply String.eqb_eq in H. now subst.
Qed.

(** C8, as stated, fails: a name whose stored alias is the empty string is
    a key of the mapping, yet the lookup does not return that alias, it
    reports the workflow absent. *)
Lemma getAlias_empty_alias_not_returned :
  own_prop [("billing", VStr "")] "billing" = Some (VStr "")
  /\ getAlias [("billing", VStr "")] (VStr "billing") = VUndefined.
Proof. split; reflexivity. Qed.

(** The lookup also answers for names that are no key and no alias: the
    members every object inherits. *)
Lemma getAlias_inherited_member :
  getAlias [] (VStr "constructor") = VBuiltin "constructor"
  /\ truthy (getAlias [] (VStr "constructor")) = true.
Proof. split; reflexivity. Qed.

(** The scan of the stored aliases is underscore's [_.find], which takes a
    mapping that holds a number under [length] for an array and looks at
    [map[0]] .. [map[length-1]] only: a stored alias is then not found. *)
Lemma getAlias_array_like_mapping :
  In (VStr "az1") (map snd [("length", VNum 1); ("a", VStr "az1")])
  /\ getAlias [("length", VNum 1); ("a", VStr "az1")] (VStr "az1") = VUndefined
  /\ getAlias [("length", VNum 1); ("a", VStr "az1")] (VStr "a") = VStr "az1".
Proof. split; [simpl; tauto | split; reflexivity]. Qed.

(** C8, amended: for every mapping and every string [s] that does not name
    an inherited [Object.prototype] member, the lookup returns the alias [s]
    maps to when [s] is a key with a non-empty (truthy) alias; otherwise,
    on a mapping that is not array-like (no number from 0 on stored under
    [length]), it returns [s] itself when some stored alias equals [s], and
    reports the workflow absent ([undefined]) when none does. *)
Theorem getAlias_by_name_then_by_alias (m : object) (s : string) :
  is_prototype_member s = false ->
  (forall a, own_prop m s = Some a -> truthy a = true ->
             getAlias m (VStr s) = a)
  /\ (array_like m = None ->
      (forall a, own_prop m s = Some a -> truthy a = false) ->
      In (VStr s) (map snd m) -> getAlias m (VStr s) = VStr s)
  /\ (array_like m = None ->
      (forall a, own_prop m s = Some a -> truthy a = false) ->
      ~ In (VStr s) (map snd m) -> getAlias m (VStr s) = VUndefined).
Proof.
  intros Hproto. unfold getAlias, get_prop. simpl to_string. rewrite Hproto.
  repeat split.
  - intros a Ha Ht. now rewrite Ha, Ht.
  - intros Hplain Hfalsy Hin.
    assert (Hown : truthy match own_prop m s with Some v => v | None => VUndefined end = false).
    { destruct (own_prop m s) as [a|] eqn:Ha; [now apply Hfalsy | reflexivity]. }
    rewrite Hown.
    destruct (find_value_first (fun v => strict_eq v (VStr s)) m (VStr s) Hplain Hin
                (strict_eq_refl _)) as [Heq _].
    now apply strict_eq_string.
  - intros Hplain Hfalsy Hnot.
    assert (Hown : truthy match own_prop m s with Some v => v | None => VUndefined end = false).
    { destruct (own_prop m s) as [a|] eqn:Ha; [now apply Hfalsy | reflexivity]. }
    rewrite Hown. apply find_value_none; [exact Hplain|]. intros x Hx.
    destruct (strict_eq x (VStr s)) eqn:E; [|reflexivity].
    apply strict_eq_string in E. subst. contradiction.
Qed.

Lemma getAlias_by_name_then_by_alias_witness :
  getAlias [("billing", VStr "az1")] (VStr "billing") = VStr "az1"
  /\ getAlias [("billing", VStr "az1")] (VStr "az1") = VStr "az1"
  /\ getAlias [("billing", VStr "az1")] (VStr "missing") = VUndefined.
Proof.
  destruct (getAlias_by_name_then_by_alias [("billing", VStr "az1")] "billing"
              eq_refl) as [Hname _].
  destruct (getAlias_by_name_then_by_alias [("billing", VStr "az1")] "az1"
              eq_refl) as [_ [Halias _]].
  destruct (getAlias_by_name_then_by_alias [("billing", VStr "az1")] "missing"
              eq_refl) as [_ [_ Habsent]].
  split; [|split].
  - apply Hname; reflexivity.
  - apply Halias; [reflexivity | simpl; discriminate | simpl; now left].
  - apply Habsent; [reflexivity | simpl; discriminate|].
    simpl. intros [H|[]]. discriminate H.
Defined.


(** ** The request builder *)

#[local] Arguments hmac_sha256_hex : simpl never.
#[local] Arguments signData : simpl never.
#[local] Arguments signed_message : simpl never.
#[local] Arguments signed_body : simpl never.
#[local] Arguments normalized_params : simpl never.
#[local] Arguments with_query : simpl never.
#[local] Arguments byteLength : simpl never.
#[local] Arguments JSON_stringify : simpl never.

Lemma own_prop_set_named_same (o : object) (k : string) (v : value) :
  own_prop (set_named o k v) k = Some v.
Proof.
  induction o as [|[k' v'] o IH]; simpl.
  - now rewrite String.eqb_refl.
  - destruct (k' =? k)%string eqn:E; simpl; rewrite E; [reflexivity | exact IH].
Qed.

Lemma own_prop_set_named_other (o : object) (k k' : string) (v : value) :
  k <> k' -> own_prop (set_named o k v) k' = own_prop o k'.
Proof.
  intros Hne. induction o as [|[k0 v0] o IH]; simpl.
  - destruct (String.eqb_spec k k'); [contradiction | reflexivity].
  - destruct (k0 =? k)%string eqn:E; simpl.
    + apply String.eqb_eq in E. subst k0.
      destruct (String.eqb_spec k k'); [contradiction | reflexivity].
    + destruct (k0 =? k')%string; [reflexivity | exact IH].
Qed.

Lemma own_prop_insert_index_same (o : object) (k : string) (n : Z) (v : value) :
  array_index k = Some n -> own_prop (insert_index o k n v) k = Some v.
Proof.
  intros Hk. induction o as [|[k' v'] o IH]; cbn [insert_index own_prop].
  - now rewrite String.eqb_refl.
  - destruct (array_index k') as [n'|] eqn:Hk';
      [destruct (n' <? n) eqn:Hlt|]; cbn [own_prop];
      try now rewrite String.eqb_refl.
    destruct (String.eqb_spec k' k) as [->|_]; [|exact IH].
    rewrite Hk in Hk'. injection Hk' as <-. rewrite Z.ltb_irrefl in Hlt. discriminate.
Qed.

Lemma own_prop_insert_index_other (o : object) (k k' : string) (n : Z) (v : value) :
  k <> k' -> own_prop (insert_index o k n v) k' = own_prop o k'.
Proof.
  intros Hne. induction o as [|[k0 v0] o IH]; cbn [insert_index own_prop].
  - destruct (String.eqb_spec k k'); [contradiction | reflexivity].
  - destruct (array_index k0) as [n0|]; [destruct (n0 <? n)|]; cbn [own_prop];
      try (destruct (String.eqb_spec k k'); [contradiction | reflexivity]).
    destruct (k0 =? k')%string; [reflexivity | exact IH].
Qed.

Lemma own_prop_set_prop_same (o : object) (k : string) (v : value) :
  own_prop (set_prop o k v) k = Some v.
Proof.
  unfold set_prop. destruct (array_index k) as [n|] eqn:Hk.
  - destruct (own_prop o k);
      [apply own_prop_set_named_same | now apply own_prop_insert_index_same].
  - apply own_prop_set_named_same.
Qed.

Lemma own_prop_set_prop_other (o : object) (k k' : string) (v : value) :
  k <> k' -> own_prop (set_prop o k v) k' = own_prop o k'.
Proof.
  intros Hne. unfold set_prop. destruct (array_index k) as [n|].
  - destruct (own_prop o k);
      [now apply own_prop_set_named_other | now apply own_prop_insert_index_other].
  - now apply own_prop_set_named_other.
Qed.

(** A property whose name is no array index: kept in place or put last. *)
Lemma set_prop_named (o : object) (k : string) (v : value) :
  array_index k = None -> set_prop o k v = set_named o k v.
Proof. unfold set_prop. now intros ->. Qed.

(** Without credentials [makeRequest] stops at its guard. *)
Lemma makeRequest_no_credentials env self options params :
  credentials self = None ->
  makeRequest env self options params = (self, Called MissingCredentials VUndefined).
Proof. intros H. unfold makeRequest. now rewrite H. Qed.

(** With credentials it signs, then sends, then hands the answer of the
    transport to its completion function. *)
Lemma makeRequest_run env self options params key secret :
  credentials self = Some (key, secret) ->
  let built := signed_request env self options params key secret in
  makeRequest env self options params
  = (log (EvSend (snd built)) (fst built),
     on_response env (transport env (trace (fst built)) (snd built))).
Proof.
  intros H. unfold makeRequest. rewrite H.
  now destruct (signed_request env self options params key secret).
Qed.

Lemma signed_request_trace env self options params key secret :
  trace (fst (signed_request env self options params key secret))
  = (trace self
     ++ [EvSign (normalized_params params) (method options) (path options)
           (now env (trace self))])%list.
Proof. reflexivity. Qed.

Lemma signed_request_hash env self options params key secret :
  own_prop (req_headers (snd (signed_request env self options params key secret)))
    "x-api-hash"
  = Some (VStr (signData secret (normalized_params params) (method options)
                  (path options) (now env (trace self)))).
Proof.
  unfold signed_request. cbn [snd req_headers].
  rewrite own_prop_set_prop_other by discriminate.
  apply own_prop_set_prop_same.
Qed.

(** The serialization of the normalized params is always a text. *)
Lemma normalized_params_text (params : value) :
  exists text, JSON_stringify (normalized_params params) = Some text.
Proof.
  unfold normalized_params.
  destruct (truthy params) eqn:Ht; cbn [negb orb]; [|now eexists].
  destruct (keys_count params <? 1)%nat eqn:Hk; [now eexists|].
  apply Nat.ltb_ge in Hk.
  destruct params; cbn in Hk; try lia; now eexists.
Qed.

Lemma normalized_params_absent (params : value) :
  truthy params = false \/ keys_count params = O ->
  normalized_params params = VStr "".
Proof.
  unfold normalized_params. intros [H|H]; rewrite H; [reflexivity|].
  now rewrite orb_true_r.
Qed.

Lemma normalized_params_object (params : value) :
  typeof params = TObject -> (1 <= keys_count params)%nat ->
  normalized_params params = params /\ truthy params = true.
Proof.
  intros Ht Hk. unfold normalized_params.
  assert (truthy params = true) as ->.
  { destruct params; cbn in *; try discriminate; try lia; reflexivity. }
  apply Nat.ltb_ge in Hk. now rewrite Hk.
Qed.

(** The loop of the GET branch only ever extends the path. *)
Lemma addGetParameter_longer (p : string) (k v : value) :
  (String.length p < String.length (addGetParameter p k v))%nat.
Proof.
  unfold addGetParameter. rewrite !append_length.
  destruct (contains_char "?" p); cbn [String.length]; lia.
Qed.

Lemma with_query_longer (path : string) (params : value) :
  each_entries params <> [] ->
  (String.length path < String.length (with_query path params))%nat.
Proof.
  unfold with_query. destruct (each_entries params) as [|e es]; [congruence|].
  intros _. cbn [fold_left].
  pose proof (addGetParameter_longer path (fst e) (snd e)) as Hfirst.
  revert Hfirst. generalize (addGetParameter path (fst e) (snd e)).
  induction es as [|e' es IH]; intros q Hq; [exact Hq|].
  cbn [fold_left]. apply IH.
  pose proof (addGetParameter_longer q (fst e') (snd e')). lia.
Qed.

(** C6: for every GET request, the [x-api-hash] header is the signature
    computed over the route path as it was before any query parameter was
    appended.  The signing comes first in the trace, with the route path;
    the header is the HMAC of the text get:route path:timestamp+body; the
    request that is sent afterwards has the path with the query, which is
    another path as soon as there is one parameter.  (For params other
    than a text with characters outside ASCII.) *)
Theorem get_request_signs_route_path
    env self options params key secret :
  credentials self = Some (key, secret) ->
  method options = "GET" ->
  plain_text_params params = true ->
  exists request,
    trace (fst (makeRequest env self options params))
    = (trace self
       ++ [EvSign (normalized_params params) "GET" (path options)
             (now env (trace self));
           EvSend request])%list
    /\ own_prop (req_headers request) "x-api-hash"
       = Some (VStr (hmac_sha256_hex secret
                       ("get:" ++ path options ++ ":" ++ now env (trace self)
                        ++ signed_body (normalized_params params))))
    /\ req_path request = with_query (path options) (normalized_params params)
    /\ (each_entries (normalized_params params) <> [] ->
        req_path request <> path options
        /\ (String.length (path options) < String.length (req_path request))%nat).
Proof.
  intros Hcred Hget _.
  exists (snd (signed_request env self options params key secret)).
  rewrite (makeRequest_run _ _ _ _ _ _ Hcred).
  cbn zeta. cbn [fst log trace]. rewrite signed_request_trace, signed_request_hash.
  rewrite Hget. rewrite <- app_assoc.
  assert (Hpath : req_path (snd (signed_request env self options params key secret))
                  = with_query (path options) (normalized_params params)).
  { unfold signed_request. cbn [snd req_path]. now rewrite Hget. }
  split; [reflexivity|]. split; [|split; [exact Hpath|]].
  - unfold signData, signed_message. rewrite join_colon_3.
    cbn [toLowerCase lower_char]. do 3 f_equal. cbn. now rewrite !append_assoc.
  - intros Hsome. rewrite Hpath.
    pose proof (with_query_longer (path options) _ Hsome) as Hlen.
    split; [|exact Hlen]. intros E. rewrite E in Hlen. lia.
Qed.

Lemma get_request_signs_route_path_witness :
  exists request,
    own_prop (req_headers request) "x-api-hash"
    = Some (VStr (hmac_sha256_hex "s"
                    ("get:" ++ "/account/flos" ++ ":" ++ Sample.timestamp
                     ++ signed_body (normalized_params (VObj [("q", VStr "a b")])))))
    /\ req_path request <> "/account/flos".
Proof.
  destruct (get_request_signs_route_path Sample.env Sample.client routes.flos
              (VObj [("q", VStr "a b")]) "k" "s" eq_refl eq_refl eq_refl)
    as (request & _ & Hhash & _ & Hquery).
  exists request. split; [exact Hhash|].
  apply Hquery. vm_compute. discriminate.
Defined.

(** The request of the scenario with a query: the path that is sent and
    the signature, which is that of the route path. *)
Example get_request_scenario :
  map (fun r => (req_path r, own_prop (req_headers r) "x-api-hash"))
    (sent (trace (fst (makeRequest Sample.env Sample.client routes.flos
                         (VObj [("q", VStr "a b")])))))
  = [("/account/flos?a%20b=q",
      Some (VStr "e3820e297f97b4359bbfabfa6615877f46a8dc13303e35329b9d4dd7881f3f6f"))].
Proof. vm_compute. reflexivity. Qed.

Lemma sent_app (t u : list event) : sent (t ++ u) = (sent t ++ sent u)%list.
Proof.
  induction t as [|ev t IH]; [reflexivity|].
  destruct ev; simpl; now rewrite IH.
Qed.

Lemma refreshes_app (t u : list event) : refreshes (t ++ u) = (refreshes t + refreshes u)%nat.
Proof. unfold refreshes. now rewrite filter_app, length_app. Qed.

Lemma sign_and_send_app (t u : list event) :
  sign_and_send (t ++ u) = (sign_and_send t ++ sign_and_send u)%list.
Proof. unfold sign_and_send. apply filter_app. Qed.

(** What one run of [makeRequest] adds to the trace. *)
Lemma makeRequest_trace env self options params :
  exists added,
    trace (fst (makeRequest env self options params)) = (trace self ++ added)%list
    /\ refreshes added = O
    /\ (credentials self = None -> added = [])
    /\ (forall key secret, credentials self = Some (key, secret) ->
        added = [EvSign (normalized_params params) (method options) (path options)
                   (now env (trace self));
                 EvSend (snd (signed_request env self options params key secret))]).
Proof.
  destruct (credentials self) as [[key secret]|] eqn:Hcred.
  - eexists. rewrite (makeRequest_run _ _ _ _ _ _ Hcred). cbn zeta.
    cbn [fst log trace]. rewrite signed_request_trace, <- app_assoc.
    split; [reflexivity|]. split; [reflexivity|]. split; [discriminate|].
    now intros k s [= <- <-].
  - exists []. rewrite (makeRequest_no_credentials _ _ _ _ Hcred). cbn [fst].
    rewrite app_nil_r. repeat split. discriminate.
Qed.

Lemma makeRequest_keeps_state env self options params :
  account (fst (makeRequest env self options params)) = account self
  /\ floMap (fst (makeRequest env self options params)) = floMap self.
Proof.
  unfold makeRequest. destruct (credentials self) as [[key secret]|]; [|now split].
  now split.
Qed.

(** C7: what the code does on a POST with empty params: the signature
    covers the empty string, while the body handed to the transport is the
    JSON text of the empty string, two quote characters, with
    Content-Length 2, where the claim has the empty string transmitted and
    signed. *)
Theorem post_empty_params_body_is_quoted :
  signed_body (normalized_params (VObj [])) = ""
  /\ req_body (snd (signed_request Sample.env Sample.client Sample.invoke_az1
                      (VObj []) "k" "s"))
     = VStr (dquote ++ dquote)
  /\ own_prop (req_headers (snd (signed_request Sample.env Sample.client
                                   Sample.invoke_az1 (VObj []) "k" "s")))
       "Content-Length"
     = Some (VNum 2)
  /\ dquote ++ dquote <> "".
Proof. repeat split. discriminate. Qed.

(** The POST branch in general: the body handed to the transport is a
    string, Content-Length is the exact byte length of that string, and
    the signature covers post:path:timestamp followed by the signed body.
    For params that are a non-empty object or array the transmitted body is
    the JSON serialization of the params and the signed body is that same
    text. *)
Lemma post_request_body env self options params key secret :
  credentials self = Some (key, secret) ->
  method options = "POST" ->
  let timestamp := now env (trace self) in
  let request := snd (signed_request env self options params key secret) in
  exists text,
    sent (trace (fst (makeRequest env self options params)))
    = (sent (trace self) ++ [request])%list
    /\ req_body request = VStr text
    /\ own_prop (req_headers request) "Content-Length"
       = Some (VNum (Z.of_nat (String.length text)))
    /\ own_prop (req_headers request) "x-api-hash"
       = Some (VStr (hmac_sha256_hex secret
                       ("post:" ++ path options ++ ":" ++ timestamp
                        ++ signed_body (normalized_params params))))
    /\ (typeof params = TObject -> (1 <= keys_count params)%nat ->
        JSON_stringify params = Some text
        /\ signed_body (normalized_params params) = text).
Proof.
  intros Hcred Hpost. cbn zeta.
  destruct (normalized_params_text params) as [text Htext]. exists text.
  split.
  { destruct (makeRequest_trace env self options params) as (added & -> & _ & _ & H).
    rewrite (H _ _ Hcred), sent_app. reflexivity. }
  split.
  { unfold signed_request. cbn [snd req_body]. now rewrite Hpost, Htext. }
  split.
  { unfold signed_request. cbn [snd req_headers]. rewrite Hpost, Htext.
    cbn [String.eqb Ascii.eqb Bool.eqb].
    rewrite !own_prop_set_prop_other by discriminate.
    apply own_prop_set_prop_same. }
  split.
  { rewrite signed_request_hash, Hpost. unfold signData, signed_message.
    rewrite join_colon_3. cbn [toLowerCase lower_char].
    do 3 f_equal. cbn. now rewrite !append_assoc. }
  intros Hobj Hk. destruct (normalized_params_object params Hobj Hk) as [Hn Ht].
  rewrite Hn in *. split; [exact Htext|].
  unfold signed_body. now rewrite Ht, Hobj, Htext.
Qed.

Lemma post_request_body_witness :
  exists text,
    req_body (snd (signed_request Sample.env Sample.client Sample.invoke_az1
                     Sample.payload "k" "s")) = VStr text
    /\ own_prop (req_headers (snd (signed_request Sample.env Sample.client
                                     Sample.invoke_az1 Sample.payload "k" "s")))
         "Content-Length"
       = Some (VNum (Z.of_nat (String.length text)))
    /\ JSON_stringify Sample.payload = Some text
    /\ signed_body (normalized_params Sample.payload) = text.
Proof.
  destruct (post_request_body Sample.env Sample.client Sample.invoke_az1
              Sample.payload "k" "s" eq_refl eq_refl)
    as (text & _ & Hbody & Hlength & _ & Hobject).
  destruct (Hobject eq_refl (le_n 1)) as [Hjson Hsigned].
  exists text. repeat split; assumption.
Defined.

(** The end-to-end scenario of the specification: the body is [{"amt":5}],
    nine bytes, signed under [s]. *)
Example post_scenario :
  map (fun r => (req_method r, req_path r, req_body r,
                 own_prop (req_headers r) "Content-Length",
                 own_prop (req_headers r) "x-api-hash"))
    (sent (trace (fst (makeRequest Sample.env Sample.client Sample.invoke_az1
                         Sample.payload))))
  = [("POST", "/flo/az1/invoke", VStr ("{" ++ dquote ++ "amt" ++ dquote ++ ":5}"),
      Some (VNum 9),
      Some (VStr (hmac_sha256_hex "s"
                    ("post:/flo/az1/invoke:" ++ Sample.timestamp
                     ++ "{" ++ dquote ++ "amt" ++ dquote ++ ":5}"))))].
Proof. vm_compute. reflexivity. Qed.

(** The header object is shared: the Content-Length that a POST has set is
    still there when the next GET is sent. *)
Example content_length_stays_on_next_get :
  let after_post := fst (makeRequest Sample.env Sample.client Sample.invoke_az1
                           Sample.payload) in
  map (fun r => (req_method r, own_prop (req_headers r) "Content-Length"))
    (sent (trace (fst (flos Sample.env after_post true))))
  = [("POST", Some (VNum 9)); ("GET", Some (VNum 9))].
Proof. vm_compute. reflexivity. Qed.

(** C5: what the code does on a GET with params [{q: "a b"}] on the list
    route: the pair is appended as value=key, [?a%20b=q], where the claim
    has key=value, [?q=a%20b]; and the body handed to the transport is the
    params object, where the claim has the empty string. *)
Theorem get_query_has_value_before_key :
  map (fun r => (req_path r, req_body r))
    (sent (trace (fst (makeRequest Sample.env Sample.client routes.flos
                         (VObj [("q", VStr "a b")])))))
  = [("/account/flos?a%20b=q", VObj [("q", VStr "a b")])].
Proof. vm_compute. reflexivity. Qed.

(** What the POST branch does with absent or empty params, in general:
    it signs the empty string and transmits its JSON text. *)
Lemma post_absent_params env self options params key secret :
  method options = "POST" ->
  truthy params = false \/ keys_count params = O ->
  signed_body (normalized_params params) = ""
  /\ req_body (snd (signed_request env self options params key secret))
     = VStr (dquote ++ dquote).
Proof.
  intros Hpost Habsent. rewrite (normalized_params_absent params Habsent).
  split; [reflexivity|].
  unfold signed_request. cbn [snd req_body].
  now rewrite Hpost, (normalized_params_absent params Habsent).
Qed.

(** The loop of the GET branch, for an object that is not array-like: one
    component per pair,
    the encoded element before the [=] and the encoded name after it. *)
Lemma with_query_object (path : string) (props : object) :
  array_like props = None ->
  with_query path (VObj props)
  = fold_left (fun p kv =>
                 p ++ (if contains_char "?" p then "&" else "?")
                   ++ percent_encode (to_string (snd kv)) ++ "="
                   ++ percent_encode (fst kv))
      props path.
Proof.
  intros Hplain. unfold with_query. cbn [each_entries]. rewrite Hplain.
  clear Hplain. revert path.
  induction props as [|[k v] props IH]; intros path; [reflexivity|].
  cbn [map fold_left fst snd]. rewrite IH. reflexivity.
Qed.

(** ** The list of workflows *)

#[local] Arguments makeRequest : simpl never.
#[local] Arguments signed_request : simpl never.

Lemma credentials_log ev self : credentials (log ev self) = credentials self.
Proof. reflexivity. Qed.

(** With a filled cache and no refresh asked, [flos] answers from the cache. *)
Lemma flos_cached env self m :
  floMap self = Some m ->
  flos env self false = (self, Called VNull (VArr (map (fun kv => VStr (fst kv)) m))).
Proof. intros H. unfold flos. now rewrite H. Qed.

(** Otherwise it goes to the service. *)
Lemma flos_remote env self refresh :
  refresh = true \/ floMap self = None ->
  flos env self refresh
  = let (self', r) := makeRequest env (log EvRefresh self) routes.flos VNull in
    match r with
    | Called error list =>
        if truthy error then (self', Called error VUndefined)
        else
          match list with
          | VArr items =>
              match collect_flos items [] [] with
              | (m, out, None) => (set_floMap m self', Called VNull (VArr out))
              | (m, _, Some stop) => (set_floMap m self', stop)
              end
          | VUndefined | VNull => (set_floMap [] self', Threw)
          | VObj (_ :: _) | VStr (String _ _) | VBuiltin _ =>
              (set_floMap [] self', Outside)
          | _ => (set_floMap [] self', Called VNull (VArr []))
          end
    | stop => (self', stop)
    end.
Proof.
  intros H. unfold flos.
  destruct (floMap self) as [m|], refresh; try reflexivity.
  destruct H; discriminate.
Qed.

(** A remote run of [flos] keeps the account, and its trace is the refresh
    followed by what the request adds. *)
Lemma flos_remote_state env self refresh :
  refresh = true \/ floMap self = None ->
  account (fst (flos env self refresh)) = account self
  /\ trace (fst (flos env self refresh))
     = trace (fst (makeRequest env (log EvRefresh self) routes.flos VNull)).
Proof.
  intros H. rewrite (flos_remote _ _ _ H).
  pose proof (makeRequest_keeps_state env (log EvRefresh self) routes.flos VNull) as [Ha _].
  destruct (makeRequest env (log EvRefresh self) routes.flos VNull) as [self' r].
  cbn [fst] in *.
  destruct r as [error list| |]; [|now split|now split].
  destruct (truthy error); [now split|].
  destruct list as [| | | |[|c t]|items|[|p props]| |]; try now split.
  destruct (collect_flos items [] []) as [[m out] [stop|]]; now split.
Qed.

Lemma flos_remote_refreshes env self refresh :
  refresh = true \/ floMap self = None ->
  refreshes (trace (fst (flos env self refresh))) = S (refreshes (trace self)).
Proof.
  intros H. destruct (flos_remote_state env self refresh H) as [_ ->].
  destruct (makeRequest_trace env (log EvRefresh self) routes.flos VNull)
    as (added & -> & Hadded & _).
  cbn [log trace]. rewrite !refreshes_app, Hadded. cbn. lia.
Qed.

(** When a remote run of [flos] calls back without an error, the cache is set. *)
Lemma flos_remote_success env self refresh error d :
  refresh = true \/ floMap self = None ->
  snd (flos env self refresh) = Called error d -> truthy error = false ->
  exists m, floMap (fst (flos env self refresh)) = Some m.
Proof.
  intros H. rewrite (flos_remote _ _ _ H).
  destruct (makeRequest env (log EvRefresh self) routes.flos VNull) as [self' r].
  destruct r as [e list| |]; [|discriminate|discriminate].
  destruct (truthy e) eqn:He.
  - cbn [snd]. intros [= -> _] Hf. congruence.
  - destruct list as [| | | |[|c t]|items|[|p props]| |]; cbn [fst snd];
      try discriminate; try (intros _ _; now eexists).
    destruct (collect_flos items [] []) as [[m out] [stop|]]; intros _ _; now exists m.
Qed.

(** ** Missing credentials *)

(** C4, as stated, fails: without the secret, [flos()] on a client whose
    cache is filled does not fail, it answers with the cached names. *)
Lemma flos_cached_without_credentials :
  credentials Sample.client_no_secret = None
  /\ flos Sample.env Sample.client_no_secret false
     = (Sample.client_no_secret, Called VNull (VArr [VStr "billing"])).
Proof. split; vm_compute; reflexivity. Qed.

Lemma falsy_not_inherited (v : value) : truthy v = false -> inherited v = false.
Proof. destruct v; simpl; congruence. Qed.

(** With nothing to send, every truthy alias ends the same way. *)
Lemma dispatch_any_without_request env self alias data out :
  (forall options params, makeRequest env self options params = (self, out)) ->
  dispatch_any env self alias data
  = (self, if replacement_throws alias then Threw else out).
Proof.
  intros Hreq. unfold dispatch_any, replacement_throws, dispatch.
  destruct alias as [| | | | | | | |k]; try apply Hreq.
  destruct (k =? "__proto__")%string; cbn [negb andb]; [apply Hreq|].
  destruct (str_replace_call (path routes.invoke) ":id" (called_replacement k));
    [apply Hreq | reflexivity].
Qed.

(** C4, amended: if accessKey or accessSecret is absent or empty, every run
    of [makeRequest] fails at once with "Account information not found",
    with nothing signed and nothing sent; so does every [flos] that needs
    the service, because a refresh is asked or the cache was never filled,
    and so does every [invoke], of any name, payload and force flag, unless
    the name resolves to an inherited function that throws when [replace]
    calls it, in which case [invoke] throws before the guard; nothing is
    signed or sent either way.  [flos] without refresh on a filled cache
    does not fail: it answers with the cached names. *)
Theorem missing_credentials_fail env self :
  credentials self = None ->
  (forall options params,
     makeRequest env self options params
     = (self, Called (VError "Account information not found") VUndefined))
  /\ (forall refresh, refresh = true \/ floMap self = None ->
      flos env self refresh
      = (log EvRefresh self, Called (VError "Account information not found") VUndefined))
  /\ (forall fuel flo data force,
      exists self',
        invoke (S fuel) env self flo data force
        = Some (self', if replacement_throws (resolved self flo force) then Threw
                       else Called (VError "Account information not found") VUndefined)
        /\ sign_and_send (trace self') = sign_and_send (trace self))
  /\ (forall m, floMap self = Some m ->
      flos env self false
      = (self, Called VNull (VArr (map (fun kv => VStr (fst kv)) m)))).
Proof.
  intros Hcred.
  assert (Hreq : forall options params,
            makeRequest env self options params
            = (self, Called MissingCredentials VUndefined)).
  { intros. now apply makeRequest_no_credentials. }
  assert (Hflos : forall refresh, refresh = true \/ floMap self = None ->
            flos env self refresh
            = (log EvRefresh self, Called MissingCredentials VUndefined)).
  { intros refresh H. rewrite (flos_remote _ _ _ H).
    now rewrite makeRequest_no_credentials by (now rewrite credentials_log). }
  split; [exact Hreq|]. split; [exact Hflos|].
  split; [|intros m Hm; now apply flos_cached].
  intros fuel flo data force. cbn [invoke]. fold (resolved self flo force).
  destruct (truthy (resolved self flo force)) eqn:Ht.
  - rewrite (dispatch_any_without_request _ _ _ _ _ Hreq). now eexists.
  - rewrite Hflos by now left. cbn.
    assert (Hno : replacement_throws (resolved self flo force) = false).
    { destruct (resolved self flo force); try reflexivity. discriminate Ht. }
    rewrite Hno. eexists. split; [reflexivity|].
    cbn [log trace]. rewrite sign_and_send_app. cbn. now rewrite app_nil_r.
Qed.

Lemma missing_credentials_fail_witness :
  credentials Sample.client_no_secret = None
  /\ makeRequest Sample.env Sample.client_no_secret Sample.invoke_az1 Sample.payload
     = (Sample.client_no_secret, Called MissingCredentials VUndefined)
  /\ flos Sample.env Sample.client_no_secret true
     = (log EvRefresh Sample.client_no_secret, Called MissingCredentials VUndefined)
  /\ exists self',
       invoke 2 Sample.env Sample.client_no_secret (VStr "billing") Sample.payload false
       = Some (self', Called MissingCredentials VUndefined).
Proof.
  assert (Hcred : credentials Sample.client_no_secret = None) by reflexivity.
  destruct (missing_credentials_fail Sample.env Sample.client_no_secret Hcred)
    as (Hreq & Hflos & Hinvoke & _).
  split; [exact Hcred|]. split; [apply Hreq|]. split; [apply Hflos; now left|].
  destruct (Hinvoke 1%nat (VStr "billing") Sample.payload false) as (self' & H & _).
  now exists self'.
Defined.

(** An inherited function that needs a receiver: [invoke] throws. *)
Example invoke_valueOf_throws :
  invoke 1 Sample.env Sample.client_no_secret (VStr "valueOf") Sample.payload false
  = Some (Sample.client_no_secret, Threw).
Proof. vm_compute. reflexivity. Qed.

(** ** Answers that are not JSON *)

Lemma on_response_not_json env body :
  JSON_parse env body = None ->
  on_response env (TransportOk body) = Called (VStr body) VUndefined.
Proof. intros H. unfold on_response. now rewrite H. Qed.

Lemma makeRequest_not_json env self options params key secret body :
  credentials self = Some (key, secret) ->
  answer env self options params key secret = TransportOk body ->
  JSON_parse env body = None ->
  makeRequest env self options params
  = (log (EvSend (snd (signed_request env self options params key secret)))
       (fst (signed_request env self options params key secret)),
     Called (VStr body) VUndefined).
Proof.
  intros Hcred Hanswer Hparse. rewrite (makeRequest_run _ _ _ _ _ _ Hcred).
  cbn zeta. unfold answer in Hanswer. rewrite Hanswer.
  now rewrite on_response_not_json.
Qed.

(** C10: what the code does when the list request is answered with an
    empty body.  The empty body is not JSON, so [makeRequest] calls back
    with it as the error; it is falsy, so the [if(error)] of [flos] misses
    it: [flos] empties the cache, hands [undefined] to [async.each], which
    throws, and the callback of [flos] is never called.  The claim has the
    call reported as failed, with the raw body as the error, as [invoke]
    does report it on its dispatch path for the same answer. *)
Theorem flos_empty_body_not_reported :
  JSON_parse (Sample.env_answering "") "" = None
  /\ snd (makeRequest (Sample.env_answering "") (log EvRefresh Sample.client)
            routes.flos VNull)
     = Called (VStr "") VUndefined
  /\ snd (flos (Sample.env_answering "") Sample.client true) = Threw
  /\ floMap (fst (flos (Sample.env_answering "") Sample.client_cached true)) = Some []
  /\ option_map snd (invoke 1 (Sample.env_answering "") Sample.client_cached
                       (VStr "billing") Sample.payload false)
     = Some (Called (VStr "") VUndefined).
Proof. repeat split; vm_compute; reflexivity. Qed.

(** With a body that is not JSON and not empty, [makeRequest] and [flos]
    both call back with the raw body as the error. *)
Lemma non_json_body_is_the_error env self key secret body :
  credentials self = Some (key, secret) ->
  JSON_parse env body = None ->
  (forall options params,
     answer env self options params key secret = TransportOk body ->
     snd (makeRequest env self options params) = Called (VStr body) VUndefined)
  /\ (forall refresh,
      refresh = true \/ floMap self = None ->
      answer env (log EvRefresh self) routes.flos VNull key secret = TransportOk body ->
      body <> "" ->
      snd (flos env self refresh) = Called (VStr body) VUndefined).
Proof.
  intros Hcred Hparse. split.
  - intros options params Hanswer.
    now rewrite (makeRequest_not_json _ _ _ _ _ _ _ Hcred Hanswer Hparse).
  - intros refresh Hremote Hanswer Hne. rewrite (flos_remote _ _ _ Hremote).
    rewrite (makeRequest_not_json env (log EvRefresh self) _ _ key secret body);
      [|now rewrite credentials_log|exact Hanswer|exact Hparse].
    cbn [truthy]. destruct (String.eqb_spec body ""); [contradiction|reflexivity].
Qed.

(** ** Invoke *)

(** An alias found by the lookup is one of the stored values. *)
Lemma getAlias_in_values (m : object) (flo : value) :
  truthy (getAlias m flo) = true -> inherited (getAlias m flo) = false ->
  In (getAlias m flo) (map snd m).
Proof.
  unfold getAlias, get_prop.
  assert (Hfind : truthy (find_value (fun v => strict_eq v flo) m) = true ->
                  inherited (find_value (fun v => strict_eq v flo) m) = false ->
                  In (find_value (fun v => strict_eq v flo) m) (map snd m)).
  { intros Ht Hinh. apply find_value_found; [exact Ht|].
    intros k E. rewrite E in Hinh. discriminate. }
  destruct (own_prop m (to_string flo)) as [a|] eqn:Hown.
  - destruct (truthy a) eqn:Ha; [|exact Hfind].
    intros _ _. eapply own_prop_In; eassumption.
  - destruct (is_prototype_member (to_string flo)); cbn [truthy]; [|exact Hfind].
    cbn [inherited]. discriminate.
Qed.

(** A stored value that is truthy is found again when looked up itself,
    on a mapping that is not array-like. *)
Lemma getAlias_of_value (m : object) (a : value) :
  array_like m = None ->
  In a (map snd m) -> truthy a = true -> truthy (getAlias m a) = true.
Proof.
  intros Hplain Hin Ha. unfold getAlias.
  destruct (truthy (get_prop m (to_string a))) eqn:Hown; [exact Hown|].
  destruct (find_value_first (fun v => strict_eq v a) m a Hplain Hin (strict_eq_refl a))
    as [Heq _].
  now rewrite (strict_eq_truthy _ _ Heq).
Qed.

Lemma dispatch_refreshes env self alias data :
  refreshes (trace (fst (dispatch env self alias data))) = refreshes (trace self).
Proof.
  unfold dispatch.
  destruct (makeRequest_trace env self (invoke_options alias) data)
    as (added & -> & Hadded & _).
  rewrite refreshes_app, Hadded. lia.
Qed.

(** The dispatch branch either throws at [replace], with the client as it
    was, or it is one POST request through [makeRequest]. *)
Lemma dispatch_any_cases env self alias data :
  (replacement_throws alias = true /\ dispatch_any env self alias data = (self, Threw))
  \/ exists options,
       method options = "POST"
       /\ (inherited alias = false -> options = invoke_options alias)
       /\ dispatch_any env self alias data = makeRequest env self options data.
Proof.
  unfold dispatch_any, replacement_throws, dispatch.
  destruct alias as [| | | | | | | |k];
    try (right; eexists; split; [|split; [intros _; reflexivity|]]; reflexivity).
  destruct (k =? "__proto__")%string; cbn [negb andb].
  - right. exists (invoke_options (VBuiltin k)).
    split; [|split; [discriminate|]]; reflexivity.
  - destruct (str_replace_call (path routes.invoke) ":id" (called_replacement k))
      as [p|].
    + right. exists {| path := p; method := method routes.invoke |}.
      split; [|split; [discriminate|]]; reflexivity.
    + left. now split.
Qed.

Lemma dispatch_any_plain env self alias data :
  inherited alias = false ->
  dispatch_any env self alias data = dispatch env self alias data.
Proof. destruct alias; try reflexivity. discriminate. Qed.

Lemma dispatch_any_refreshes env self alias data :
  refreshes (trace (fst (dispatch_any env self alias data))) = refreshes (trace self).
Proof.
  destruct (dispatch_any_cases env self alias data) as [[_ ->]|(o & _ & _ & ->)];
    [reflexivity|].
  destruct (makeRequest_trace env self o data) as (added & -> & Hadded & _).
  rewrite refreshes_app, Hadded. lia.
Qed.

Lemma invoke_step fuel env self flo data force :
  invoke (S fuel) env self flo data force
  = if truthy (resolved self flo force)
    then Some (dispatch_any env self (resolved self flo force) data)
    else
      let (self1, r) := flos env self true in
      match r with
      | Called error _ =>
          if truthy error then Some (self1, Called error VUndefined)
          else
            match floMap self1 with
            | None => Some (self1, Threw)
            | Some m =>
                if truthy (getAlias m flo)
                then invoke fuel env self1 (getAlias m flo) data false
                else Some (self1, Called WorkflowNotFound VUndefined)
            end
      | stop => Some (self1, stop)
      end.
Proof. reflexivity. Qed.

Lemma invoke_resolved env self flo data force fuel :
  truthy (resolved self flo force) = true ->
  invoke (S fuel) env self flo data force
  = Some (dispatch_any env self (resolved self flo force) data).
Proof. intros Ht. rewrite invoke_step. now rewrite Ht. Qed.

Lemma resolved_unforced self flo : resolved self flo false = getAlias (cache self) flo.
Proof. unfold resolved. now rewrite andb_false_r. Qed.

(** C2: what the code does for a name that is in no cache but is the name
    of a member every object inherits.  The lookup [map[str]] answers with
    the inherited function, which is truthy, so [invoke] takes it for an
    alias: it refreshes nothing and posts to the route with what [replace]
    makes of the function, where the claim has one refresh and then the
    error "Flo not found". *)
Theorem invoke_inherited_name_skips_refresh :
  own_prop (cache Sample.client) "constructor" = None
  /\ ~ In (VStr "constructor") (map snd (cache Sample.client))
  /\ option_map (fun r => (refreshes (trace (fst r)),
                           map (fun q => (req_method q, req_path q))
                             (sent (trace (fst r))),
                           snd r))
       (invoke 2 Sample.env Sample.client (VStr "constructor") Sample.payload false)
     = Some (0%nat, [("POST", "/flo/:id/invoke")], Called VNull (VObj [])).
Proof.
  split; [reflexivity|]. split; [intros []|]. vm_compute. reflexivity.
Qed.

(** A second refresh: when the list holds a workflow named [length] with
    a number for its alias, the refreshed cache is array-like for
    underscore, the alias just found is not found again by the call
    [self.invoke(alias, data, callback)], and that call refreshes once
    more and reports a workflow that is listed as not found. *)
Example invoke_refreshes_twice_on_array_like_cache :
  let listed := VArr [VObj [("name", VStr "billing"); ("alias", VStr "az1")];
                      VObj [("name", VStr "length"); ("alias", VNum 0)]] in
  let env := {| JSON_parse := fun body =>
                  if (body =? "list")%string then Some listed else Sample.parse body;
                transport := fun _ r =>
                  if (req_path r =? path routes.flos)%string
                  then TransportOk "list" else TransportOk "{}";
                now := fun _ => Sample.timestamp |} in
  option_map (fun r => (refreshes (trace (fst r)),
                        map req_path (sent (trace (fst r))), snd r))
    (invoke 3 env Sample.client (VStr "billing") Sample.payload false)
  = Some (2%nat, ["/account/flos"; "/account/flos"],
          Called (VError "Flo not found") VUndefined).
Proof. vm_compute. reflexivity. Qed.

(** The end-to-end scenario: with an empty cache, [invoke("billing",
    {amt: 5})] asks for the list once, resolves [billing] to [az1] and posts
    to [/flo/az1/invoke]. *)
Example invoke_scenario :
  option_map (fun r => (map (fun q => (req_method q, req_path q, req_body q))
                          (sent (trace (fst r))),
                        refreshes (trace (fst r)), snd r))
    (invoke 2 Sample.env Sample.client (VStr "billing") Sample.payload false)
  = Some ([("GET", "/account/flos", VStr "");
           ("POST", "/flo/az1/invoke", VStr ("{" ++ dquote ++ "amt" ++ dquote ++ ":5}"))],
          1%nat, Called VNull (VObj [])).
Proof. vm_compute. reflexivity. Qed.

(** After a refresh the alias found is looked up once more, as if it were
    a name: with [a] mapped to [b] and [b] to [c], [invoke("a")] posts to
    [/flo/c/invoke] when it had to refresh, and to [/flo/b/invoke] when the
    cache was filled. *)
Example invoke_resolves_again_after_refresh :
  let chain := VArr [VObj [("name", VStr "a"); ("alias", VStr "b")];
                     VObj [("name", VStr "b"); ("alias", VStr "c")]] in
  let text := "[{" ++ Sample.key_value "name" "a" ++ ","
                   ++ Sample.key_value "alias" "b" ++ "},{"
                   ++ Sample.key_value "name" "b" ++ ","
                   ++ Sample.key_value "alias" "c" ++ "}]" in
  let env := {| JSON_parse := fun body =>
                  if (body =? text)%string then Some chain else Sample.parse body;
                transport := fun _ r =>
                  if (req_path r =? path routes.flos)%string
                  then TransportOk text else TransportOk "{}";
                now := fun _ => Sample.timestamp |} in
  option_map (fun r => map req_path (sent (trace (fst r))))
    (invoke 2 env Sample.client (VStr "a") Sample.payload false)
  = Some ["/account/flos"; "/flo/c/invoke"]
  /\ option_map (fun r => map req_path (sent (trace (fst r))))
       (invoke 2 env (set_floMap [("a", VStr "b"); ("b", VStr "c")] Sample.client)
          (VStr "a") Sample.payload false)
     = Some ["/flo/b/invoke"].
Proof. split; vm_compute; reflexivity. Qed.

(** A replacement text without a dollar is taken as it is. *)
Lemma get_substitution_plain (matched before after repl : string) :
  contains_char "$" repl = false ->
  get_substitution matched before after repl = repl.
Proof.
  induction repl as [|c tail IH]; [reflexivity|].
  cbn [contains_char get_substitution]. intros H.
  apply orb_false_iff in H as [Hc Htail].
  rewrite Ascii.eqb_sym, Hc. now rewrite IH.
Qed.

Lemma invoke_path_plain (alias : string) :
  contains_char "$" alias = false ->
  path (invoke_options (VStr alias)) = "/flo/" ++ alias ++ "/invoke".
Proof.
  intros H. unfold invoke_options, str_replace. cbn [path routes.invoke to_string].
  change (index 0 ":id" "/flo/:id/invoke") with (Some 5%nat).
  cbv beta iota. rewrite (get_substitution_plain _ _ _ _ H). reflexivity.
Qed.

(** C3, as stated, fails: with [billing] cached under the alias [az1],
    [invoke("billing", payload, true)] does not go round the cache, it
    posts to the cached alias, not to the name given. *)
Lemma invoke_forced_uses_cached_alias :
  option_map (fun r => map req_path (sent (trace (fst r))))
    (invoke 1 Sample.env (set_floMap [("billing", VStr "az1")] Sample.client)
       (VStr "billing") Sample.payload true)
  = Some ["/flo/az1/invoke"].
Proof. vm_compute. reflexivity. Qed.

(** With the empty name, forcing does not prevent the refresh. *)
Lemma invoke_forced_empty_name_refreshes :
  option_map (fun r => refreshes (trace (fst r)))
    (invoke 2 Sample.env Sample.client (VStr "") Sample.payload true)
  = Some 1%nat.
Proof. vm_compute. reflexivity. Qed.

(** A dollar in the forced name is not taken verbatim. *)
Lemma invoke_forced_dollar_name :
  option_map (fun r => map req_path (sent (trace (fst r))))
    (invoke 1 Sample.env Sample.client (VStr "a$&b") Sample.payload true)
  = Some ["/flo/a:idb/invoke"].
Proof. vm_compute. reflexivity. Qed.

(** C3, amended: for every non-empty name and every payload,
    [invoke(name, payload, true)] returns without any refresh of the
    cache.  The lookup comes first: when it does not resolve the name, the
    request is dispatched with the name given as the alias put into the
    invoke route path, verbatim when the name has no dollar sign; when it
    does resolve the name, to a cached alias or to a member inherited from
    [Object.prototype], what it found is handed to [replace] in place of
    the name. *)
Theorem invoke_forced_never_refreshes env self name data :
  name <> "" ->
  exists self' out,
    (forall fuel, invoke (S fuel) env self (VStr name) data true = Some (self', out))
    /\ refreshes (trace self') = refreshes (trace self)
    /\ (truthy (getAlias (cache self) (VStr name)) = false ->
        (self', out) = makeRequest env self (invoke_options (VStr name)) data
        /\ (contains_char "$" name = false ->
            path (invoke_options (VStr name)) = "/flo/" ++ name ++ "/invoke"))
    /\ (truthy (getAlias (cache self) (VStr name)) = true ->
        (self', out) = dispatch_any env self (getAlias (cache self) (VStr name)) data
        /\ (inherited (getAlias (cache self) (VStr name)) = false ->
            (self', out)
            = makeRequest env self
                (invoke_options (getAlias (cache self) (VStr name))) data)).
Proof.
  intros Hname.
  assert (Hstr : truthy (VStr name) = true).
  { cbn. destruct (String.eqb_spec name ""); [contradiction|reflexivity]. }
  assert (Htruthy : truthy (resolved self (VStr name) true) = true).
  { unfold resolved. destruct (truthy (getAlias (cache self) (VStr name))) eqn:Ht;
      cbn [negb andb]; assumption. }
  destruct (dispatch_any env self (resolved self (VStr name) true) data)
    as [self' out] eqn:E.
  exists self', out. split; [|split; [|split]].
  - intros fuel. now rewrite (invoke_resolved _ _ _ _ _ _ Htruthy), E.
  - change self' with (fst (self', out)). rewrite <- E. apply dispatch_any_refreshes.
  - intros Hnot. unfold resolved in E. rewrite Hnot in E. cbn [negb andb] in E.
    split; [now rewrite <- E | apply invoke_path_plain].
  - intros Hfound. unfold resolved in E. rewrite Hfound in E. cbn [negb andb] in E.
    split; [now rewrite <- E|].
    intros Hinh. now rewrite <- E, (dispatch_any_plain _ _ _ _ Hinh).
Qed.

Lemma invoke_forced_never_refreshes_witness :
  exists self' out,
    invoke 1 Sample.env Sample.client (VStr "az1") Sample.payload true
    = Some (self', out)
    /\ refreshes (trace self') = refreshes (trace Sample.client)
    /\ (self', out)
       = makeRequest Sample.env Sample.client (invoke_options (VStr "az1"))
           Sample.payload
    /\ path (invoke_options (VStr "az1")) = "/flo/az1/invoke".
Proof.
  assert (Hname : "az1" <> "") by discriminate.
  destruct (invoke_forced_never_refreshes Sample.env Sample.client "az1"
              Sample.payload Hname)
    as (self' & out & Hinv & Hcount & Hverbatim & _).
  destruct (Hverbatim eq_refl) as [Hreq Hpath].
  exists self', out.
  split; [exact (Hinv 0%nat)|]. split; [exact Hcount|]. split; [exact Hreq|].
  apply Hpath. reflexivity.
Defined.

(** Forced, a name that the lookup takes for an inherited function. *)
Example invoke_forced_inherited_name :
  option_map (fun r => map req_path (sent (trace (fst r))))
    (invoke 1 Sample.env Sample.client (VStr "toString") Sample.payload true)
  = Some ["/flo/[object Undefined]/invoke"].
Proof. vm_compute. reflexivity. Qed.

(* ================================================================== *)
(** * Further properties *)

(** ** The shape of a signature *)

Lemma round_length (st : list Z) (kw : Z * Z) :
  List.length st = 8%nat -> List.length (SHA256.round st kw) = 8%nat.
Proof.
  intros H. do 9 (destruct st as [|? st]; try discriminate H). reflexivity.
Qed.

Lemma rounds_length (kws : list (Z * Z)) (st : list Z) :
  List.length st = 8%nat -> List.length (fold_left SHA256.round kws st) = 8%nat.
Proof.
  revert st. induction kws as [|kw kws IH]; intros st H; [exact H|].
  cbn [fold_left]. apply IH. now apply round_length.
Qed.

Lemma compress_length (H block : list Z) :
  List.length H = 8%nat -> List.length (SHA256.compress H block) = 8%nat.
Proof.
  intros HH. unfold SHA256.compress.
  rewrite length_map, length_combine, rounds_length by exact HH.
  rewrite HH. reflexivity.
Qed.

Lemma blocks_length (n : nat) (H bs : list Z) :
  List.length H = 8%nat -> List.length (SHA256.blocks n H bs) = 8%nat.
Proof.
  revert H bs. induction n as [|n IH]; intros H bs HH; [exact HH|].
  cbn [SHA256.blocks]. apply IH. now apply compress_length.
Qed.

Lemma land_255_byte (x : Z) : 0 <= Z.land x 255 < 256.
Proof.
  change 255 with (Z.ones 8). rewrite Z.land_ones by lia.
  apply Z.mod_pos_bound. lia.
Qed.

Lemma be_bytes_bytes (n : nat) (x : Z) :
  Forall (fun b => 0 <= b < 256) (SHA256.be_bytes n x).
Proof.
  induction n as [|n IH]; [constructor|].
  cbn [SHA256.be_bytes]. constructor; [apply land_255_byte | exact IH].
Qed.

(** A digest is 32 bytes. *)
Lemma digest_shape (msg : list Z) :
  List.length (SHA256.digest msg) = 32%nat
  /\ Forall (fun b => 0 <= b < 256) (SHA256.digest msg).
Proof.
  unfold SHA256.digest.
  pose proof (blocks_length (List.length (SHA256.pad msg) / 64) SHA256.initial_hash
                (SHA256.pad msg) eq_refl) as H.
  destruct (SHA256.blocks _ _ _) as [|a l]; [discriminate|].
  do 8 (destruct l as [|? l]; try discriminate H).
  split; [reflexivity|].
  cbn [flat_map]. repeat (apply Forall_app; split; [apply be_bytes_bytes|]).
  constructor.
Qed.

Lemma hex_digit_lower (d : Z) :
  0 <= d < 16 -> is_lower_hex (hex_digit false d) = true.
Proof.
  intros H.
  assert (d = 0 \/ d = 1 \/ d = 2 \/ d = 3 \/ d = 4 \/ d = 5 \/ d = 6 \/ d = 7
          \/ d = 8 \/ d = 9 \/ d = 10 \/ d = 11 \/ d = 12 \/ d = 13 \/ d = 14
          \/ d = 15) as Hd by lia.
  repeat (destruct Hd as [-> | Hd]; [reflexivity|]). now subst.
Qed.

Lemma hex_of_bytes_shape (bs : list Z) :
  Forall (fun b => 0 <= b < 256) bs ->
  String.length (hex_of_bytes bs) = (2 * List.length bs)%nat
  /\ all_chars is_lower_hex (hex_of_bytes bs) = true.
Proof.
  induction 1 as [|b bs Hb _ [IHlen IHhex]]; [now split|].
  change (hex_of_bytes (b :: bs))
    with (String (hex_digit false (Z.shiftr b 4))
            (String (hex_digit false (Z.land b 15)) (hex_of_bytes bs))).
  cbn [String.length all_chars List.length].
  split; [lia|].
  rewrite IHhex, !hex_digit_lower; [reflexivity| |].
  - change 15 with (Z.ones 4). rewrite Z.land_ones by lia.
    apply Z.mod_pos_bound. lia.
  - rewrite Z.shiftr_div_pow2 by lia. change (2 ^ 4) with 16.
    split; [apply Z.div_pos; lia | apply Z.div_lt_upper_bound; lia].
Qed.

(** X1: whatever the secret, the data, the verb, the path and the
    timestamp, the signature that [signData] returns is a text of exactly
    64 characters, each of them one of [0-9a-f]. *)
Theorem signData_is_64_hex_digits
    (secret : string) (data : value) (verb path timestamp : string) :
  String.length (signData secret data verb path timestamp) = 64%nat
  /\ all_chars is_lower_hex (signData secret data verb path timestamp) = true.
Proof.
  unfold signData, hmac_sha256_hex, HMAC.sha256.
  match goal with |- context [SHA256.digest ?m] =>
    destruct (digest_shape m) as [Hlen Hbytes];
    destruct (hex_of_bytes_shape _ Hbytes) as [Hl Hh];
    rewrite Hl, Hlen, Hh
  end.
  split; reflexivity.
Qed.

(** ** Query parameters *)

Lemma all_chars_app (p : ascii -> bool) (a b : string) :
  all_chars p (a ++ b) = all_chars p a && all_chars p b.
Proof.
  induction a as [|c a IH]; [reflexivity|].
  cbn [append all_chars]. now rewrite IH, andb_assoc.
Qed.

Lemma all_chars_not_contains (p : ascii -> bool) (c : ascii) (s : string) :
  all_chars p s = true -> p c = false -> contains_char c s = false.
Proof.
  intros Hs Hc. induction s as [|d s IH]; [reflexivity|].
  cbn [all_chars contains_char] in *. apply andb_true_iff in Hs as [Hd Hs].
  rewrite (IH Hs), orb_false_r.
  destruct (Ascii.eqb_spec c d); [congruence | reflexivity].
Qed.

Lemma contains_char_app (c : ascii) (a b : string) :
  contains_char c (a ++ b) = contains_char c a || contains_char c b.
Proof.
  induction a as [|d a IH]; [reflexivity|].
  cbn [append contains_char]. now rewrite IH, orb_assoc.
Qed.

Lemma percent_encode_char_output (c : ascii) :
  all_chars uri_output (percent_encode_char c) = true.
Proof. destruct c as [[] [] [] [] [] [] [] []]; reflexivity. Qed.

Lemma percent_encode_output (s : string) :
  all_chars uri_output (percent_encode s) = true.
Proof.
  induction s as [|c s IH]; [reflexivity|].
  cbn [percent_encode]. now rewrite all_chars_app, percent_encode_char_output, IH.
Qed.

Lemma percent_decode_char (c : ascii) (t : string) :
  percent_decode (percent_encode_char c ++ t) = String c (percent_decode t).
Proof. destruct c as [[] [] [] [] [] [] [] []]; reflexivity. Qed.

(** Decoding undoes encoding. *)
Lemma percent_decode_encode (s : string) : percent_decode (percent_encode s) = s.
Proof.
  induction s as [|c s IH]; [reflexivity|].
  cbn [percent_encode]. now rewrite percent_decode_char, IH.
Qed.

(** X2: whatever the value, [encodeURIComponent] as the GET loop uses it
    yields only unreserved characters and percent signs; in particular
    none of the characters that structure a query: [?], [&], [=], [#]. *)
Theorem encodeURIComponent_is_query_safe (v : value) :
  all_chars uri_output (encodeURIComponent v) = true
  /\ contains_char "?" (encodeURIComponent v) = false
  /\ contains_char "&" (encodeURIComponent v) = false
  /\ contains_char "=" (encodeURIComponent v) = false
  /\ contains_char "#" (encodeURIComponent v) = false.
Proof.
  unfold encodeURIComponent.
  pose proof (percent_encode_output (to_string v)) as H.
  repeat split; [exact H | ..];
    apply (all_chars_not_contains uri_output _ _ H); reflexivity.
Qed.

(** Two texts that are cut at the first occurrence of a character agree
    part by part. *)
Lemma split_at_first (c : ascii) (a a' b b' : string) :
  contains_char c a = false -> contains_char c a' = false ->
  a ++ String c b = a' ++ String c b' -> a = a' /\ b = b'.
Proof.
  revert a'. induction a as [|x a IH]; intros [|y a']; cbn [append contains_char].
  - intros _ _ [= ->]. now split.
  - intros _ H [= <- _]. rewrite Ascii.eqb_refl in H. discriminate.
  - intros H _ [= -> _]. rewrite Ascii.eqb_refl in H. discriminate.
  - intros Ha Ha' [= -> H].
    apply orb_false_iff in Ha as [_ Ha]. apply orb_false_iff in Ha' as [_ Ha'].
    destruct (IH a' Ha Ha' H) as [-> ->]. now split.
Qed.

(** X3: the component that [addGetParameter] appends determines the pair
    it was made from: if two calls on one path give one result, the two
    keys have the same text and so have the two values. *)
Theorem addGetParameter_injective (path : string) (k v k' v' : value) :
  addGetParameter path k v = addGetParameter path k' v' ->
  to_string k = to_string k' /\ to_string v = to_string v'.
Proof.
  unfold addGetParameter, encodeURIComponent. intros H.
  do 2 apply append_cancel_l in H.
  assert (Hsafe : forall s, contains_char "=" (percent_encode s) = false).
  { intros s. apply (all_chars_not_contains uri_output _ _ (percent_encode_output s)).
    reflexivity. }
  apply (split_at_first "=") in H; [|apply Hsafe|apply Hsafe].
  destruct H as [Hk Hv].
  apply (f_equal percent_decode) in Hk, Hv.
  now rewrite !percent_decode_encode in Hk, Hv.
Qed.

Lemma addGetParameter_injective_witness :
  to_string (VNum 10) = to_string (VStr "10")
  /\ to_string (VStr "a b") = to_string (VStr "a b").
Proof.
  apply (addGetParameter_injective "/account/flos" (VNum 10) (VStr "a b")
           (VStr "10") (VStr "a b")).
  reflexivity.
Defined.

Lemma addGetParameter_has_query (path : string) (k v : value) :
  contains_char "?" (addGetParameter path k v) = true.
Proof.
  unfold addGetParameter. rewrite contains_char_app.
  destruct (contains_char "?" path); reflexivity.
Qed.

Lemma addGetParameter_component (path : string) (e : value * value) :
  addGetParameter path (fst e) (snd e)
  = path ++ (if contains_char "?" path then "&" else "?") ++ query_component e.
Proof. reflexivity. Qed.

(** Once the path has a question mark, every pair is appended after [&]. *)
Lemma query_loop_after_first (es : list (value * value)) (e : value * value)
    (path : string) :
  contains_char "?" path = true ->
  fold_left (fun p kv => addGetParameter p (fst kv) (snd kv)) (e :: es) path
  = path ++ "&" ++ join "&" (map query_component (e :: es)).
Proof.
  revert e path. induction es as [|e' es IH]; intros e path Hq.
  - cbn [fold_left]. rewrite addGetParameter_component, Hq. reflexivity.
  - cbn [fold_left] in *. rewrite (IH e' _ (addGetParameter_has_query path _ _)).
    rewrite addGetParameter_component, Hq.
    change (join "&" (map query_component (e :: e' :: es)))
      with (query_component e ++ "&" ++ join "&" (map query_component (e' :: es))).
    now rewrite !append_assoc.
Qed.

(** X4: the GET loop appends one component per entry that [_.each]
    yields for the params as [makeRequest] has normalized them, in order,
    joined by [&]; what precedes the first one is [?] when the route path
    has no question mark yet and [&] when it has one.  With nothing to
    iterate the path is left as it is.  (For params other than a text with
    characters outside ASCII; the entries of an object with a number from 0
    on under [length] are those of an array of that length.) *)
Theorem with_query_delimiters (path : string) (params : value) :
  plain_text_params params = true ->
  (each_entries (normalized_params params) = [] ->
   with_query path (normalized_params params) = path)
  /\ (forall e es, each_entries (normalized_params params) = e :: es ->
      with_query path (normalized_params params)
      = path ++ (if contains_char "?" path then "&" else "?")
          ++ join "&" (map query_component (e :: es))).
Proof.
  intros _. generalize (normalized_params params). clear params. intros params.
  unfold with_query. split; [now intros ->|].
  intros e es ->. destruct es as [|e' es].
  - cbn [fold_left]. now rewrite addGetParameter_component.
  - change (fold_left ?f (e :: e' :: es) path)
      with (fold_left f (e' :: es) (addGetParameter path (fst e) (snd e))).
    rewrite (query_loop_after_first es e' _ (addGetParameter_has_query path _ _)).
    rewrite addGetParameter_component.
    change (join "&" (map query_component (e :: e' :: es)))
      with (query_component e ++ "&" ++ join "&" (map query_component (e' :: es))).
    now rewrite !append_assoc.
Qed.

Lemma with_query_delimiters_witness :
  with_query "/account/flos"
    (normalized_params (VObj [("a", VStr "1"); ("b", VStr "2")]))
  = "/account/flos" ++ "?"
      ++ join "&" (map query_component [(VStr "1", VStr "a"); (VStr "2", VStr "b")])
  /\ with_query "/account/flos?x=y" (normalized_params (VObj [("a", VStr "1")]))
     = "/account/flos?x=y" ++ "&" ++ join "&" (map query_component [(VStr "1", VStr "a")]).
Proof.
  split.
  - destruct (with_query_delimiters "/account/flos"
                (VObj [("a", VStr "1"); ("b", VStr "2")]) eq_refl) as [_ H].
    exact (H _ _ eq_refl).
  - destruct (with_query_delimiters "/account/flos?x=y" (VObj [("a", VStr "1")])
                eq_refl) as [_ H].
    exact (H _ _ eq_refl).
Defined.

(** Params that underscore takes for an array: the loop runs over the
    indices below [length], whatever the object holds. *)
Example get_query_of_array_like_params :
  map req_path
    (sent (trace (fst (makeRequest Sample.env Sample.client routes.flos
                         (VObj [("length", VNum 2)])))))
  = ["/account/flos?undefined=0&undefined=1"].
Proof. vm_compute. reflexivity. Qed.

(** ** One request *)

Lemma signed_request_headers env self options params key secret :
  headers (fst (signed_request env self options params key secret))
  = req_headers (snd (signed_request env self options params key secret)).
Proof. reflexivity. Qed.

Lemma signed_request_timestamp env self options params key secret :
  own_prop (req_headers (snd (signed_request env self options params key secret)))
    "x-api-timestamp"
  = Some (VStr (now env (trace self))).
Proof.
  unfold signed_request. cbn [snd req_headers].
  rewrite !own_prop_set_prop_other by discriminate.
  apply own_prop_set_prop_same.
Qed.

(** X5: with credentials, one run of [makeRequest] hands exactly one
    request to the transport, whatever the transport answers; it starts no
    refresh and leaves the account and the alias cache as they were; the
    headers it sent stay in the header object of the client. *)
Theorem makeRequest_sends_exactly_one env self options params key secret :
  credentials self = Some (key, secret) ->
  exists request,
    sent (trace (fst (makeRequest env self options params)))
    = (sent (trace self) ++ [request])%list
    /\ refreshes (trace (fst (makeRequest env self options params)))
       = refreshes (trace self)
    /\ account (fst (makeRequest env self options params)) = account self
    /\ floMap (fst (makeRequest env self options params)) = floMap self
    /\ headers (fst (makeRequest env self options params)) = req_headers request
    /\ req_method request = method options
    /\ own_prop (req_headers request) "x-api-accessKey" = Some (VStr key).
Proof.
  intros Hcred. exists (snd (signed_request env self options params key secret)).
  destruct (makeRequest_keeps_state env self options params) as [Hacc Hmap].
  destruct (makeRequest_trace env self options params) as (added & Htrace & Href & _ & H).
  rewrite Htrace, (H _ _ Hcred), sent_app, refreshes_app.
  split; [reflexivity|]. split; [cbn; lia|].
  split; [exact Hacc|]. split; [exact Hmap|].
  rewrite (makeRequest_run _ _ _ _ _ _ Hcred). cbn zeta. cbn [fst log headers].
  split; [apply signed_request_headers|]. split; [reflexivity|].
  unfold signed_request. cbn [snd req_headers]. apply own_prop_set_prop_same.
Qed.

Lemma makeRequest_sends_exactly_one_witness :
  exists request,
    sent (trace (fst (makeRequest (Sample.env_answering "<html>") Sample.client
                        Sample.invoke_az1 Sample.payload)))
    = (sent (trace Sample.client) ++ [request])%list
    /\ floMap (fst (makeRequest (Sample.env_answering "<html>") Sample.client
                      Sample.invoke_az1 Sample.payload)) = floMap Sample.client.
Proof.
  destruct (makeRequest_sends_exactly_one (Sample.env_answering "<html>")
              Sample.client Sample.invoke_az1 Sample.payload "k" "s" eq_refl)
    as (request & Hsent & _ & _ & Hmap & _).
  exists request. split; assumption.
Defined.

(** X6: the header object is shared between requests, and only a POST
    writes Content-Length: a request with another method that follows a
    POST carries the Content-Length of that POST, the byte length of the
    body of the POST. *)
Theorem content_length_outlives_post
    env self post other params params' key secret :
  credentials self = Some (key, secret) ->
  method post = "POST" ->
  method other <> "POST" ->
  let first := snd (signed_request env self post params key secret) in
  let self' := fst (makeRequest env self post params) in
  let second := snd (signed_request env self' other params' key secret) in
  credentials self' = Some (key, secret)
  /\ own_prop (req_headers first) "Content-Length"
     = Some (VNum (byteLength (req_body first)))
  /\ own_prop (req_headers second) "Content-Length"
     = own_prop (req_headers first) "Content-Length".
Proof.
  intros Hcred Hpost Hother. cbn zeta.
  rewrite (makeRequest_run _ _ _ _ _ _ Hcred). cbn zeta. cbn [fst].
  split; [exact Hcred|]. split.
  - unfold signed_request. cbn [snd req_headers req_body]. rewrite Hpost.
    cbn [String.eqb Ascii.eqb Bool.eqb].
    rewrite !own_prop_set_prop_other by discriminate.
    apply own_prop_set_prop_same.
  - unfold signed_request at 1. cbn [snd req_headers].
    destruct (String.eqb_spec (method other) "POST") as [E|_]; [contradiction|].
    rewrite !own_prop_set_prop_other by discriminate.
    cbn [log headers]. now rewrite signed_request_headers.
Qed.

Lemma content_length_outlives_post_witness :
  own_prop
    (req_headers
       (snd (signed_request Sample.env
               (fst (makeRequest Sample.env Sample.client Sample.invoke_az1
                       Sample.payload))
               routes.flos VNull "k" "s")))
    "Content-Length"
  = own_prop
      (req_headers (snd (signed_request Sample.env Sample.client Sample.invoke_az1
                           Sample.payload "k" "s")))
      "Content-Length".
Proof.
  assert (Hother : method routes.flos <> "POST") by discriminate.
  destruct (content_length_outlives_post Sample.env Sample.client Sample.invoke_az1
              routes.flos Sample.payload VNull "k" "s" eq_refl eq_refl Hother)
    as (_ & _ & H).
  exact H.
Defined.

(** X7: the request is consistent on the wire when it is a POST of a
    non-empty object or array, or a GET without params: a receiver that
    holds the secret and signs the method, the path, the [x-api-timestamp]
    header and the body it received obtains the [x-api-hash] header. *)
Theorem request_hash_recomputable env self options params key secret :
  (method options = "POST" /\ typeof params = TObject /\ (1 <= keys_count params)%nat)
  \/ (method options = "GET" /\ (truthy params = false \/ keys_count params = O)) ->
  let request := snd (signed_request env self options params key secret) in
  exists hash,
    own_prop (req_headers request) "x-api-hash" = Some (VStr hash)
    /\ recomputed_hash secret request = Some hash.
Proof.
  intros Hcase. cbn zeta. eexists. split; [apply signed_request_hash|].
  unfold recomputed_hash. rewrite signed_request_timestamp.
  unfold signData, signed_message. rewrite join_colon_3.
  destruct Hcase as [(Hpost & Hobj & Hk) | (Hget & Habsent)].
  - destruct (normalized_params_object params Hobj Hk) as [Hn Ht].
    destruct (normalized_params_text params) as [text Htext].
    unfold signed_request. cbn [snd req_body req_method req_path].
    rewrite Hpost. cbn [String.eqb Ascii.eqb Bool.eqb]. rewrite Htext.
    rewrite Hn in *. unfold signed_body. rewrite Ht, Hobj, Htext.
    cbn [to_string]. now rewrite !append_assoc.
  - rewrite (normalized_params_absent params Habsent).
    unfold signed_request. cbn [snd req_body req_method req_path].
    rewrite Hget. cbn [String.eqb Ascii.eqb Bool.eqb].
    rewrite (normalized_params_absent params Habsent).
    change (with_query (path options) (VStr "")) with (path options).
    change (signed_body (VStr "")) with "". now rewrite !append_assoc.
Qed.

Lemma request_hash_recomputable_witness :
  exists hash,
    own_prop (req_headers (snd (signed_request Sample.env Sample.client
                                  Sample.invoke_az1 Sample.payload "k" "s")))
      "x-api-hash" = Some (VStr hash)
    /\ recomputed_hash "s" (snd (signed_request Sample.env Sample.client
                                   Sample.invoke_az1 Sample.payload "k" "s"))
       = Some hash.
Proof.
  apply (request_hash_recomputable Sample.env Sample.client Sample.invoke_az1
           Sample.payload "k" "s").
  left. split; [reflexivity|]. split; [reflexivity|]. apply le_n.
Defined.

(** X8: [makeRequest] reports success, a [null] error with data, only
    when there were credentials, the transport answered with a body that
    parses, and the parsed body has no truthy [error] member; the data is
    then the parsed body. *)
Theorem makeRequest_success_is_clean env self options params d :
  snd (makeRequest env self options params) = Called VNull d ->
  exists key secret body,
    credentials self = Some (key, secret)
    /\ answer env self options params key secret = TransportOk body
    /\ JSON_parse env body = Some d
    /\ truthy (member d "error") = false.
Proof.
  destruct (credentials self) as [[key secret]|] eqn:Hcred.
  - rewrite (makeRequest_run _ _ _ _ _ _ Hcred). cbn zeta. cbn [snd].
    fold (answer env self options params key secret).
    destruct (answer env self options params key secret) as [error|body] eqn:Hans;
      cbn [on_response].
    + destruct (truthy error) eqn:He; [|discriminate].
      intros [= -> _]. discriminate He.
    + destruct (JSON_parse env body) as [parsed|] eqn:Hparse; [|discriminate].
      intros H. exists key, secret, body. split; [reflexivity|]. split; [exact Hans|].
      destruct parsed; try discriminate H;
        match type of H with
        | (if ?c then _ else _) = _ =>
            destruct c eqn:Herr; [discriminate H|]; injection H as <-; now split
        end.
  - rewrite (makeRequest_no_credentials _ _ _ _ Hcred). discriminate.
Qed.

Lemma makeRequest_success_is_clean_witness :
  exists key secret body,
    credentials Sample.client = Some (key, secret)
    /\ answer Sample.env Sample.client Sample.invoke_az1 Sample.payload key secret
       = TransportOk body
    /\ JSON_parse Sample.env body = Some (VObj [])
    /\ truthy (member (VObj []) "error") = false.
Proof.
  apply (makeRequest_success_is_clean Sample.env Sample.client Sample.invoke_az1
           Sample.payload (VObj [])).
  vm_compute. reflexivity.
Defined.

(** ** The alias cache *)

(** [makeRequest] passes data to its callback only together with a [null]
    error. *)
Lemma makeRequest_data_means_success env self options params e d :
  snd (makeRequest env self options params) = Called e d ->
  d = VUndefined \/ e = VNull.
Proof.
  unfold makeRequest. destruct (credentials self) as [[key secret]|].
  - destruct (signed_request env self options params key secret) as [self' request].
    cbn [snd]. destruct (transport env (trace self') request) as [error|body];
      cbn [on_response].
    + destruct (truthy error); [|discriminate]. intros [= _ <-]. now left.
    + destruct (JSON_parse env body) as [parsed|]; [|intros [= _ <-]; now left].
      destruct parsed; try discriminate;
        match goal with
        | |- (if ?c then _ else _) = _ -> _ =>
            destruct c; intros [= <- <-]; [now left | now right]
        end.
  - cbn [snd]. intros [= _ <-]. now left.
Qed.

Lemma own_prop_set_prop (o : object) (k k' : string) (v : value) :
  own_prop (set_prop o k v) k'
  = if (k =? k')%string then Some v else own_prop o k'.
Proof.
  destruct (String.eqb_spec k k') as [<-|Hne].
  - apply own_prop_set_prop_same.
  - now apply own_prop_set_prop_other.
Qed.

(** What the iterator of [flos] leaves in the map: for every key, the
    alias of the last item with that key, else what was there. *)
Lemma collect_flos_own_prop (items : list value) :
  forall m out m' out',
    collect_flos items m out = (m', out', None) ->
    forall k, own_prop m' k = match last_alias items k with
                              | Some a => Some a
                              | None => own_prop m k
                              end.
Proof.
  induction items as [|flo items IH]; intros m out m' out' H k.
  - cbn in H. now injection H as <- _.
  - cbn [collect_flos] in H. cbn [last_alias]. unfold flo_key.
    destruct flo; try discriminate H;
      match type of H with
      | (if ?c then _ else _) = _ =>
          destruct c; [discriminate H|];
          rewrite (IH _ _ _ _ H k);
          destruct (last_alias items k); [reflexivity|];
          rewrite own_prop_set_prop;
          match goal with |- context [(?a =? k)%string] => destruct (a =? k)%string end;
          reflexivity
      end.
Qed.

(** A failed [makeRequest] under [flos] leaves the cache alone. *)
Lemma flos_cases env self refresh :
  refresh = true \/ floMap self = None ->
  forall e d, snd (flos env self refresh) = Called e d ->
  (truthy e = true
   /\ floMap (fst (flos env self refresh)) = floMap self
   /\ account (fst (flos env self refresh)) = account self)
  \/ (e = VNull
      /\ exists data items m out,
           snd (makeRequest env (log EvRefresh self) routes.flos VNull)
           = Called VNull data
           /\ items_of data = Some items
           /\ collect_flos items [] [] = (m, out, None)
           /\ d = VArr out
           /\ fst (flos env self refresh)
              = set_floMap m (fst (makeRequest env (log EvRefresh self)
                                     routes.flos VNull))).
Proof.
  intros Hremote e d. rewrite (flos_remote _ _ _ Hremote).
  pose proof (makeRequest_keeps_state env (log EvRefresh self) routes.flos VNull)
    as [Hacc Hmap].
  pose proof (makeRequest_data_means_success env (log EvRefresh self) routes.flos VNull)
    as Hdata.
  destruct (makeRequest env (log EvRefresh self) routes.flos VNull) as [self' r].
  cbn [fst snd] in *.
  destruct r as [error list| |]; [|discriminate|discriminate].
  destruct (truthy error) eqn:He.
  - cbn [snd fst]. intros [= <- <-]. left. now repeat split.
  - destruct list as [| |b|n|[|c t]|items|[|p props]|m|k]; cbn [snd fst];
      try discriminate;
      (destruct (Hdata error _ eq_refl) as [Hd | ->]; [discriminate Hd|]);
      try (intros [= <- <-]; right; split; [reflexivity|];
           eexists _, [], [], []; now repeat split).
    destruct (collect_flos items [] []) as [[m out] [stop|]] eqn:Hcollect.
    + cbn [snd]. intros ->.
      destruct items as [|flo items]; [discriminate Hcollect|].
      exfalso. clear -Hcollect. revert Hcollect. generalize (@nil (string * value)).
      generalize (@nil value). revert flo.
      induction items as [|flo' items IH]; intros flo out0 m0 H.
      * cbn in H. destruct flo; try discriminate H;
          match type of H with
          | (if ?c then _ else _) = _ => destruct c; discriminate H
          end.
      * cbn [collect_flos] in H.
        destruct flo; try discriminate H;
          match type of H with
          | (if ?c then _ else _) = _ =>
              destruct c; [discriminate H|]; exact (IH _ _ _ H)
          end.
    + cbn [snd fst]. intros [= <- <-]. right.
      split; [reflexivity|]. exists (VArr items), items, m, out. now repeat split.
Qed.

(** X9: when [flos] reports an error, whether it comes from the guard on
    the credentials, from the transport, from a body that is not JSON or
    from an [error] member of the answer, the alias cache and the account
    are what they were before the call. *)
Theorem flos_failure_keeps_cache env self refresh e d :
  snd (flos env self refresh) = Called e d ->
  truthy e = true ->
  floMap (fst (flos env self refresh)) = floMap self
  /\ account (fst (flos env self refresh)) = account self.
Proof.
  intros H He.
  destruct (floMap self) as [m|] eqn:Hm; [destruct refresh|].
  - destruct (flos_cases env self true (or_introl eq_refl) e d H)
      as [(_ & Hmap & Hacc) | (-> & _)]; [|discriminate He].
    rewrite Hmap, Hm. now split.
  - rewrite (flos_cached _ _ _ Hm) in H. injection H as <- _. discriminate He.
  - destruct (flos_cases env self refresh (or_intror Hm) e d H)
      as [(_ & Hmap & Hacc) | (-> & _)]; [|discriminate He].
    rewrite Hmap, Hm. now split.
Qed.

Lemma flos_failure_keeps_cache_witness :
  floMap (fst (flos (Sample.env_answering "<html>") Sample.client_cached true))
  = floMap Sample.client_cached
  /\ account (fst (flos (Sample.env_answering "<html>") Sample.client_cached true))
     = account Sample.client_cached.
Proof.
  apply (flos_failure_keeps_cache (Sample.env_answering "<html>") Sample.client_cached
           true (VStr "<html>") VUndefined); vm_compute; reflexivity.
Defined.

(** X10: a successful refresh replaces the cache wholesale: whatever the
    cache held before, afterwards a key is mapped exactly when some item of
    the list response has it for its name, and it is mapped to the alias of
    the last such item.  (An answer that holds no items, such as an empty
    object, counts as a list without items.) *)
Theorem flos_replaces_cache env self refresh e d :
  refresh = true \/ floMap self = None ->
  snd (flos env self refresh) = Called e d ->
  truthy e = false ->
  exists data items m,
    snd (makeRequest env (log EvRefresh self) routes.flos VNull)
    = Called VNull data
    /\ items_of data = Some items
    /\ floMap (fst (flos env self refresh)) = Some m
    /\ forall k, own_prop m k = last_alias items k.
Proof.
  intros Hremote H He.
  destruct (flos_cases env self refresh Hremote e d H)
    as [(Ht & _) | (_ & data & items & m & out & Hreq & Hitems & Hcollect & _ & Hself)];
    [congruence|].
  exists data, items, m. split; [exact Hreq|]. split; [exact Hitems|].
  rewrite Hself. split; [reflexivity|].
  intros k. rewrite (collect_flos_own_prop _ _ _ _ _ Hcollect k).
  now destruct (last_alias items k).
Qed.

Lemma flos_replaces_cache_witness :
  exists data items m,
    snd (makeRequest Sample.env
           (log EvRefresh (set_floMap [("old", VStr "gone")] Sample.client))
           routes.flos VNull)
    = Called VNull data
    /\ items_of data = Some items
    /\ floMap (fst (flos Sample.env (set_floMap [("old", VStr "gone")] Sample.client)
                      true)) = Some m
    /\ forall k, own_prop m k = last_alias items k.
Proof.
  apply (flos_replaces_cache Sample.env (set_floMap [("old", VStr "gone")] Sample.client)
           true VNull (VArr [VStr "billing"])).
  - now left.
  - vm_compute. reflexivity.
  - reflexivity.
Defined.

Lemma set_prop_keys (o : object) (k : string) (v : value) :
  array_index k = None ->
  map fst (set_prop o k v)
  = match own_prop o k with
    | Some _ => map fst o
    | None => (map fst o ++ [k])%list
    end.
Proof.
  intros Hk. rewrite (set_prop_named _ _ _ Hk).
  induction o as [|[k' v'] o IH]; [reflexivity|].
  cbn [set_named own_prop]. destruct (k' =? k)%string; [reflexivity|].
  cbn [map fst]. rewrite IH. now destruct (own_prop o k).
Qed.

Lemma prototype_member_proto : is_prototype_member "__proto__" = true.
Proof. reflexivity. Qed.

(** On items that are well named the iterator of [flos] does not stop, and
    the names it collects are the keys of the map it builds. *)
Lemma collect_flos_well_named (items : list value) :
  forallb well_named items = true ->
  forall m out,
    (forall k v, own_prop m k = Some v ->
                 truthy v = true /\ is_prototype_member k = false) ->
    out = map (fun kv => VStr (fst kv)) m ->
    exists m',
      collect_flos items m out = (m', map (fun kv => VStr (fst kv)) m', None).
Proof.
  induction items as [|flo items IH]; intros Hall m out Hm ->.
  - exists m. reflexivity.
  - cbn [forallb] in Hall. apply andb_true_iff in Hall as [Hflo Hall].
    destruct flo as [| | | | | |props| |]; try discriminate Hflo.
    cbn [well_named] in Hflo.
    destruct (get_prop props "name") as [| | | |name| | | |] eqn:Hname;
      try discriminate Hflo.
    apply andb_true_iff in Hflo as [Hflo Halias].
    apply andb_true_iff in Hflo as [Hproto Hindex].
    apply negb_true_iff in Hproto.
    assert (Hk : array_index name = None).
    { unfold no_index in Hindex. now destruct (array_index name). }
    cbn [collect_flos member]. rewrite Hname. cbn [to_string].
    destruct (String.eqb_spec name "__proto__") as [->|_];
      [rewrite prototype_member_proto in Hproto; discriminate|].
    apply IH; [exact Hall| |].
    + intros k v. rewrite own_prop_set_prop.
      destruct (String.eqb_spec name k) as [<-|_]; [|apply Hm].
      intros [= <-]. now split.
    + clear IH. rewrite <- !map_map with (f := fst) (g := VStr).
      rewrite (set_prop_keys _ _ _ Hk). unfold get_prop.
      destruct (own_prop m name) as [v|] eqn:Hown.
      * destruct (Hm _ _ Hown) as [-> _]. reflexivity.
      * rewrite Hproto. cbn [truthy negb]. now rewrite map_app.
Qed.

(** X11: when every item of the list response is well named, an object
    with a string name that is no inherited member and no array index, and
    with a truthy alias, the names that a refreshing [flos] returns are
    the names that [flos] returns from the cache afterwards, in the same
    order. *)
Theorem flos_names_agree_with_cache env self refresh items :
  refresh = true \/ floMap self = None ->
  snd (makeRequest env (log EvRefresh self) routes.flos VNull)
  = Called VNull (VArr items) ->
  forallb well_named items = true ->
  exists names,
    snd (flos env self refresh) = Called VNull (VArr names)
    /\ flos env (fst (flos env self refresh)) false
       = (fst (flos env self refresh), Called VNull (VArr names)).
Proof.
  intros Hremote Hreq Hnamed.
  destruct (collect_flos_well_named items Hnamed [] []) as [m Hcollect];
    [discriminate | reflexivity |].
  exists (map (fun kv => VStr (fst kv)) m).
  rewrite (flos_remote _ _ _ Hremote).
  destruct (makeRequest env (log EvRefresh self) routes.flos VNull) as [self' r].
  cbn [snd] in Hreq. subst r. cbn [truthy]. rewrite Hcollect. cbn [fst snd].
  split; [reflexivity|]. now apply flos_cached.
Qed.

Lemma flos_names_agree_with_cache_witness :
  exists names,
    snd (flos Sample.env Sample.client true) = Called VNull (VArr names)
    /\ flos Sample.env (fst (flos Sample.env Sample.client true)) false
       = (fst (flos Sample.env Sample.client true), Called VNull (VArr names)).
Proof.
  apply (flos_names_agree_with_cache Sample.env Sample.client true
           [VObj [("name", VStr "billing"); ("alias", VStr "az1")]]).
  - now left.
  - vm_compute. reflexivity.
  - reflexivity.
Defined.

(** With a name that is an array index the order differs: the refresh
    lists the names as the service sent them, the cache lists array indices
    first. *)
Example flos_names_in_key_order :
  let items := [VObj [("name", VStr "b"); ("alias", VStr "az1")];
                VObj [("name", VStr "2"); ("alias", VStr "az2")]] in
  collect_flos items [] []
  = ([("2", VStr "az2"); ("b", VStr "az1")], [VStr "b"; VStr "2"], None).
Proof. reflexivity. Qed.

(** Nor do they agree for a name that is an inherited member: it is
    stored in the cache and left out of the names returned. *)
Example flos_names_skip_inherited :
  let items := [VObj [("name", VStr "toString"); ("alias", VStr "az9")]] in
  collect_flos items [] [] = ([("toString", VStr "az9")], [], None).
Proof. reflexivity. Qed.

(** X12: once a [flos] that went to the service has called back without
    an error, a later [flos] without refresh answers from the cache: it
    returns the keys of the cache and leaves the client, its trace
    included, as it is, so nothing is signed or sent. *)
Theorem flos_after_flos_is_silent env env' self refresh e d :
  refresh = true \/ floMap self = None ->
  snd (flos env self refresh) = Called e d ->
  truthy e = false ->
  exists m,
    floMap (fst (flos env self refresh)) = Some m
    /\ flos env' (fst (flos env self refresh)) false
       = (fst (flos env self refresh),
          Called VNull (VArr (map (fun kv => VStr (fst kv)) m))).
Proof.
  intros Hremote H He.
  destruct (flos_cases env self refresh Hremote e d H)
    as [(Ht & _) | (_ & data & items & m & out & _ & _ & _ & _ & Hself)];
    [congruence|].
  exists m. rewrite Hself. split; [reflexivity|]. now apply flos_cached.
Qed.

Lemma flos_after_flos_is_silent_witness :
  exists m,
    floMap (fst (flos Sample.env Sample.client false)) = Some m
    /\ flos (Sample.env_answering "<html>") (fst (flos Sample.env Sample.client false))
         false
       = (fst (flos Sample.env Sample.client false),
          Called VNull (VArr (map (fun kv => VStr (fst kv)) m))).
Proof.
  apply (flos_after_flos_is_silent Sample.env (Sample.env_answering "<html>")
           Sample.client false VNull (VArr [VStr "billing"])).
  - now right.
  - vm_compute. reflexivity.
  - reflexivity.
Defined.

(** ** Invoke, in general *)

(** What the dispatch branch adds to the requests sent: nothing, or one
    POST; the cache and the account stay. *)
Lemma dispatch_any_effects env self alias data :
  exists news,
    sent (trace (fst (dispatch_any env self alias data)))
    = (sent (trace self) ++ news)%list
    /\ (List.length news <= 1)%nat
    /\ Forall (fun r => req_method r = "POST") news
    /\ floMap (fst (dispatch_any env self alias data)) = floMap self
    /\ account (fst (dispatch_any env self alias data)) = account self.
Proof.
  destruct (dispatch_any_cases env self alias data)
    as [[_ ->]|(options & Hpost & _ & ->)].
  - exists []. rewrite app_nil_r. cbn [fst List.length].
    repeat split; try reflexivity; [lia | constructor].
  - destruct (makeRequest_keeps_state env self options data) as [Hacc Hmap].
    destruct (makeRequest_trace env self options data)
      as (added & -> & _ & Hnone & Hsome).
    rewrite sent_app. exists (sent added).
    split; [reflexivity|].
    destruct (credentials self) as [[key secret]|].
    + rewrite (Hsome _ _ eq_refl). cbn [sent List.length].
      split; [lia|]. split; [|now split].
      constructor; [exact Hpost | constructor].
    + rewrite (Hnone eq_refl). cbn [sent List.length].
      split; [lia|]. split; [constructor | now split].
Qed.

(** What a refreshing [flos] adds to the requests sent: nothing, or the
    one GET of the list route. *)
Lemma flos_remote_effects env self :
  exists news,
    sent (trace (fst (flos env self true))) = (sent (trace self) ++ news)%list
    /\ (List.length news <= 1)%nat
    /\ Forall (fun r => req_method r = "GET") news.
Proof.
  destruct (flos_remote_state env self true (or_introl eq_refl)) as [_ ->].
  destruct (makeRequest_trace env (log EvRefresh self) routes.flos VNull)
    as (added & -> & _ & Hnone & Hsome).
  cbn [log trace]. rewrite !sent_app. cbn [sent]. rewrite app_nil_r.
  exists (sent added). split; [reflexivity|].
  change (credentials (log EvRefresh self)) with (credentials self) in *.
  destruct (credentials self) as [[key secret]|].
  - rewrite (Hsome _ _ eq_refl). cbn [sent List.length].
    split; [lia|]. constructor; [reflexivity | constructor].
  - rewrite (Hnone eq_refl). cbn [sent List.length]. split; [lia | constructor].
Qed.

(** On a mapping that is not array-like, what the lookup finds for a name
    that is no inherited member is a stored value. *)
Lemma getAlias_stored (m : object) (flo : value) :
  array_like m = None ->
  is_prototype_member (to_string flo) = false ->
  truthy (getAlias m flo) = true ->
  In (getAlias m flo) (map snd m).
Proof.
  intros Hplain Hproto. unfold getAlias, get_prop. rewrite Hproto.
  rewrite (find_value_plain _ _ Hplain).
  destruct (own_prop m (to_string flo)) as [a|] eqn:Hown.
  - destruct (truthy a) eqn:Ha.
    + intros _. eapply own_prop_In; eassumption.
    + intros Ht. now apply find_own_found.
  - cbn [truthy]. intros Ht. now apply find_own_found.
Qed.

(** X13: for a name that the cache does not resolve and that is no
    inherited member, when the refresh stays within the modelled
    fragment and the refreshed cache is not array-like,
    [invoke] without force comes to an end after at most one call of
    itself (its result is the same for every fuel from 2 on), having
    refreshed the cache exactly once and handed at most two requests to
    the transport; it keeps the account; a truthy error of the refresh is
    what the caller gets, and a name still unresolved gives the error
    "Flo not found". *)
Theorem invoke_refreshes_once env self flo data :
  truthy (getAlias (cache self) flo) = false ->
  is_prototype_member (to_string flo) = false ->
  snd (flos env self true) <> Outside ->
  array_like (cache (fst (flos env self true))) = None ->
  exists self' out,
    (forall fuel, invoke (S (S fuel)) env self flo data false = Some (self', out))
    /\ refreshes (trace self') = S (refreshes (trace self))
    /\ (List.length (sent (trace self')) <= List.length (sent (trace self)) + 2)%nat
    /\ account self' = account self
    /\ (forall error d,
        snd (flos env self true) = Called error d -> truthy error = true ->
        self' = fst (flos env self true) /\ out = Called error VUndefined)
    /\ (forall error d,
        snd (flos env self true) = Called error d -> truthy error = false ->
        truthy (getAlias (cache (fst (flos env self true))) flo) = false ->
        self' = fst (flos env self true)
        /\ out = Called (VError "Flo not found") VUndefined
        /\ truthy (VError "Flo not found") = true).
Proof.
  intros Hnot Hproto Hinside Hplain.
  pose proof (flos_remote_refreshes env self true (or_introl eq_refl)) as Hcount.
  destruct (flos_remote_state env self true (or_introl eq_refl)) as [Hacc _].
  destruct (flos_remote_effects env self) as (news1 & Hsent1 & Hlen1 & _).
  pose proof (flos_remote_success env self true) as Hset.
  assert (Hstep : forall fuel,
            invoke (S (S fuel)) env self flo data false
            = let (self1, r) := flos env self true in
              match r with
              | Called error _ =>
                  if truthy error then Some (self1, Called error VUndefined)
                  else
                    match floMap self1 with
                    | None => Some (self1, Threw)
                    | Some m =>
                        if truthy (getAlias m flo)
                        then invoke (S fuel) env self1 (getAlias m flo) data false
                        else Some (self1, Called WorkflowNotFound VUndefined)
                    end
              | stop => Some (self1, stop)
              end).
  { intros fuel. rewrite invoke_step, resolved_unforced. now rewrite Hnot. }
  destruct (flos env self true) as [self1 r] eqn:Hflos. cbn [fst snd] in *.
  assert (Hbound : (List.length (sent (trace self1))
                    <= List.length (sent (trace self)) + 2)%nat).
  { rewrite Hsent1, length_app. lia. }
  destruct r as [error d| |].
  - destruct (truthy error) eqn:He.
    + exists self1, (Called error VUndefined).
      split; [exact Hstep|]. split; [exact Hcount|]. split; [exact Hbound|].
      split; [exact Hacc|]. split.
      * intros e' d' [= <- <-] _. now split.
      * intros e' d' [= <- <-]. congruence.
    + destruct (Hset error d (or_introl eq_refl) eq_refl He) as [m Hm].
      rewrite Hm in Hstep. unfold cache in Hplain |- *. rewrite Hm in Hplain |- *.
      destruct (truthy (getAlias m flo)) eqn:Ht.
      * pose proof (getAlias_stored m flo Hplain Hproto Ht) as Hin.
        pose proof (getAlias_of_value m _ Hplain Hin Ht) as Hagain.
        assert (Hres : truthy (resolved self1 (getAlias m flo) false) = true).
        { rewrite resolved_unforced. unfold cache. now rewrite Hm. }
        destruct (dispatch_any_effects env self1
                    (resolved self1 (getAlias m flo) false) data)
          as (news2 & Hsent2 & Hlen2 & _ & _ & Hacc2).
        pose proof (dispatch_any_refreshes env self1
                      (resolved self1 (getAlias m flo) false) data) as Href2.
        destruct (dispatch_any env self1 (resolved self1 (getAlias m flo) false) data)
          as [self' out] eqn:E.
        cbn [fst] in *. exists self', out.
        split; [intros fuel; rewrite Hstep, (invoke_resolved _ _ _ _ _ _ Hres);
                now rewrite E|].
        split; [now rewrite Href2|].
        split; [rewrite Hsent2, Hsent1, !length_app; lia|].
        split; [congruence|]. split.
        { intros e' d' [= <- <-]. congruence. }
        intros e' d' [= <- <-] _. congruence.
      * exists self1, (Called WorkflowNotFound VUndefined).
        split; [exact Hstep|]. split; [exact Hcount|]. split; [exact Hbound|].
        split; [exact Hacc|]. split.
        { intros e' d' [= <- <-]. congruence. }
        intros e' d' _ _ _. now repeat split.
  - exists self1, Threw. split; [exact Hstep|]. split; [exact Hcount|].
    split; [exact Hbound|]. split; [exact Hacc|]. split; intros; discriminate.
  - now contradiction Hinside.
Qed.

Lemma invoke_refreshes_once_witness :
  exists self',
    invoke 2 Sample.env Sample.client (VStr "missing") (VObj []) false
    = Some (self', Called (VError "Flo not found") VUndefined)
    /\ refreshes (trace self') = 1%nat.
Proof.
  assert (Hinside : snd (flos Sample.env Sample.client true) <> Outside)
    by (vm_compute; discriminate).
  destruct (invoke_refreshes_once Sample.env Sample.client (VStr "missing")
              (VObj []) eq_refl eq_refl Hinside eq_refl)
    as (self' & out & Hinv & Hcount & _ & _ & _ & Hmissing).
  destruct (Hmissing VNull (VArr [VStr "billing"])) as (_ & -> & _);
    try (vm_compute; reflexivity).
  exists self'. split; [exact (Hinv 0%nat) | exact Hcount].
Defined.

(** X14: a workflow is invoked by its alias as it is by its name: when
    the cache is not array-like and maps [name] to a non-empty text [a],
    and [a] is not itself a name with a truthy entry (nor an inherited
    member), [invoke] of [a] and [invoke] of [name] are the same run, for
    every payload and force flag. *)
Theorem invoke_by_alias_as_by_name env self name a data force fuel :
  array_like (cache self) = None ->
  own_prop (cache self) name = Some (VStr a) ->
  a <> "" ->
  truthy (get_prop (cache self) a) = false ->
  invoke fuel env self (VStr a) data force
  = invoke fuel env self (VStr name) data force.
Proof.
  intros Hplain Hown Ha Hfree.
  assert (Ht : truthy (VStr a) = true).
  { cbn. destruct (String.eqb_spec a ""); [contradiction | reflexivity]. }
  assert (Hname : getAlias (cache self) (VStr name) = VStr a).
  { unfold getAlias, get_prop. cbn [to_string]. now rewrite Hown, Ht. }
  assert (Halias : getAlias (cache self) (VStr a) = VStr a).
  { unfold getAlias. cbn [to_string]. rewrite Hfree.
    destruct (find_value_first (fun v => strict_eq v (VStr a)) (cache self) (VStr a)
                Hplain (own_prop_In _ _ _ Hown) (strict_eq_refl _)) as [Heq _].
    now apply strict_eq_string. }
  destruct fuel as [|fuel]; [reflexivity|].
  rewrite !invoke_step. unfold resolved. rewrite Hname, Halias, Ht.
  cbn [negb andb]. now rewrite Ht.
Qed.

Lemma invoke_by_alias_as_by_name_witness :
  invoke 2 Sample.env Sample.client_cached (VStr "az1") Sample.payload false
  = invoke 2 Sample.env Sample.client_cached (VStr "billing") Sample.payload false.
Proof.
  assert (Ha : "az1" <> "") by discriminate.
  exact (invoke_by_alias_as_by_name Sample.env Sample.client_cached "billing" "az1"
           Sample.payload false 2 eq_refl eq_refl Ha eq_refl).
Defined.

(** ** Constructing a client, promises *)

(** X17: a text given to the constructor wins over the environment even
    when it is empty: a client constructed with the empty string as its
    key or as its secret fails every request with the missing-account
    error, whatever [ACCESS_KEY] and [ACCESS_SECRET] hold, and nothing is
    signed or sent. *)
Theorem empty_argument_hides_environment env ACCESS_KEY ACCESS_SECRET
    accessKey accessSecret options params :
  accessKey = VStr "" \/ accessSecret = VStr "" ->
  makeRequest env (Azuqua ACCESS_KEY ACCESS_SECRET accessKey accessSecret)
    options params
  = (Azuqua ACCESS_KEY ACCESS_SECRET accessKey accessSecret,
     Called MissingCredentials VUndefined).
Proof.
  intros H. apply makeRequest_no_credentials.
  unfold credentials, Azuqua. cbn [account].
  destruct H as [-> | ->].
  - now destruct accessSecret; destruct (nonempty ACCESS_SECRET); try destruct ACCESS_SECRET.
  - destruct accessKey as [| | | |key| | | |];
      destruct (nonempty ACCESS_KEY); try destruct ACCESS_KEY; try reflexivity;
      cbn; now rewrite andb_false_r.
Qed.

Lemma empty_argument_hides_environment_witness :
  makeRequest Sample.env (Azuqua (Some "key") (Some "secret") (VStr "") VUndefined)
    routes.flos VNull
  = (Azuqua (Some "key") (Some "secret") (VStr "") VUndefined,
     Called MissingCredentials VUndefined).
Proof.
  exact (empty_argument_hides_environment Sample.env (Some "key") (Some "secret")
           (VStr "") VUndefined routes.flos VNull (or_introl eq_refl)).
Defined.

(** X18: [invoke] called without a callback, on a name the cache resolves,
    when the service answers with a body that is not JSON: the promise is
    rejected with the raw body when the body is not empty, and it is
    FULFILLED, with undefined, when the body is empty, because the
    callback that [wrapAsyncFunction] installs tests the error for
    truthiness and the empty string is falsy. *)
Theorem invoke_promise_on_non_json env self flo data force fuel key secret body :
  truthy (getAlias (cache self) flo) = true ->
  inherited (getAlias (cache self) flo) = false ->
  credentials self = Some (key, secret) ->
  answer env self (invoke_options (getAlias (cache self) flo)) data key secret
  = TransportOk body ->
  JSON_parse env body = None ->
  exists self',
    invoke (S fuel) env self flo data force
    = Some (self', Called (VStr body) VUndefined)
    /\ settle (Called (VStr body) VUndefined)
       = if (body =? "")%string then Fulfilled VUndefined else Rejected (VStr body).
Proof.
  intros Ht Hinh Hcred Hans Hjson.
  assert (Hres : resolved self flo force = getAlias (cache self) flo).
  { unfold resolved. now rewrite Ht. }
  rewrite invoke_resolved by (now rewrite Hres).
  rewrite Hres, (dispatch_any_plain _ _ _ _ Hinh). unfold dispatch.
  rewrite (makeRequest_not_json _ _ _ _ _ _ _ Hcred Hans Hjson).
  eexists. split; [reflexivity|].
  cbn. now destruct (body =? "")%string.
Qed.

Lemma invoke_promise_on_non_json_witness :
  exists self',
    invoke 1 (Sample.env_answering "") Sample.client_cached (VStr "billing")
      Sample.payload false
    = Some (self', Called (VStr "") VUndefined)
    /\ settle (Called (VStr "") VUndefined) = Fulfilled VUndefined.
Proof.
  apply (invoke_promise_on_non_json (Sample.env_answering "") Sample.client_cached
           (VStr "billing") Sample.payload false 0%nat "k" "s" "");
    vm_compute; reflexivity.
Defined.
